(** * verona-rt, [src/rt/cpp/vobject.h]: descriptors built from C++ classes

    The header turns a user class [T] into a Verona object ([V<T>]) or a
    Verona cown ([VCown<T>]).  Its work is done at two moments:

    - when the templates are instantiated (which members does [T] declare,
      do the wrappers type-check, which allocation function does a
      new-expression select), modelled by functions into [build];
    - when the program runs (the function-local static of [desc()], the
      wrappers stored in the descriptor, the allocation functions),
      modelled by state passing over [State].

    A class is described by [ClassDecl]: the members it declares, by name
    and parameter list, together with what their bodies do to an
    [ObjectStack] handed to them. *)

From stdpp Require Import base strings list gmap numbers.

Local Open Scope string_scope.
Local Open Scope N_scope.

(** ** Outcome of template instantiation *)

Inductive BuildError :=
| NoMatchingFunction (cls name : string)   (* no viable candidate for a call *)
| AmbiguousCall (cls name : string)        (* several equally good candidates *)
| UseOfDeletedFunction (name : string)     (* a function declared [= delete] is selected *)
| Inaccessible (cls name : string)         (* the selected member is not public *)
| AmbiguousLookup (cls name : string)      (* a name found in two base classes *)
| UnusableDestructor (cls : string).       (* ~T() is not public, or is deleted *)

Inductive build (A : Type) :=
| Built (a : A)
| IllFormed (e : BuildError).
Arguments Built {A} a.
Arguments IllFormed {A} e.

#[global] Instance build_ret : MRet build := λ A a, Built a.
#[global] Instance build_bind : MBind build := λ A B f m,
  match m with
  | Built a => f a
  | IllFormed e => IllFormed e
  end.

Definition is_built {A} (m : build A) : bool :=
  match m with Built _ => true | IllFormed _ => false end.

(** ** Classes as the templates see them *)

Abbreviation Ptr := N (only parsing).
Abbreviation ObjectStack := (list N) (only parsing).

(** Parameter types a member function of [T] may be declared with. *)
Inductive CType :=
| TObjectPtr            (* Object* *)
| TConstObjectPtr       (* const Object* *)
| TVoidPtr              (* void* *)
| TCownPtr              (* Cown* *)
| TObjectStackRef       (* ObjectStack& *)
| TConstObjectStackRef  (* const ObjectStack& *)
| TInt.                 (* int *)

(** Types of the argument expressions the wrappers write:
    [o] and [region] are [Object*], [st] and [sub_regions] are lvalues of
    type [ObjectStack]. *)
Inductive ArgType := AObjectPtr | AObjectStack.

(** Implicit conversion of an argument to a parameter type, with its rank
    (0 identity, 1 qualification, 2 pointer conversion); [None] when the
    argument cannot initialise the parameter. *)
Definition conversion (a : ArgType) (p : CType) : option nat :=
  match a, p with
  | AObjectPtr, TObjectPtr => Some 0%nat
  | AObjectPtr, TConstObjectPtr => Some 1%nat
  | AObjectPtr, TVoidPtr => Some 2%nat
  | AObjectStack, TObjectStackRef => Some 0%nat
  | AObjectStack, TConstObjectStackRef => Some 1%nat
  | _, _ => None
  end.

(** A member function (not a template) of a class. *)
Record MemberDecl := {
  mname : string;
  mparams : list CType;
  (* declared [public]; a private or protected member can be named neither
     by the probes nor by [VBase], to which the class grants no friendship *)
  mpublic : bool;
  (* effect of the body on an ObjectStack it receives by reference *)
  mbody : Ptr → ObjectStack → ObjectStack;
}.

Record ClassDecl := {
  cname : string;
  csizeof : N;                      (* sizeof(T) *)
  cmembers : list MemberDecl;       (* the members T declares, in order *)
  (* the members of the base classes of T other than the adapter *)
  cinherited : list MemberDecl;
  ctrivially_destructible : bool;   (* std::is_trivially_destructible_v<T> *)
  cdestructor_usable : bool;        (* ~T() is public and not deleted *)
}.

(** The members [T] declares under [name]. *)
Definition declared (name : string) (T : ClassDecl) : list MemberDecl :=
  filter (λ m, mname m = name) (cmembers T).

Definition declares (name : string) (T : ClassDecl) : Prop :=
  ∃ m, m ∈ cmembers T ∧ mname m = name.

(** The members [T] inherits under [name] from its other base classes. *)
Definition inherited (name : string) (T : ClassDecl) : list MemberDecl :=
  filter (λ m, mname m = name) (cinherited T).

(** Member name lookup of one of the hook names in the scope of [T]: the
    declarations of [T] itself, which hide those of its bases, and
    otherwise what the base classes declare.  Access plays no part in
    lookup. *)
Definition lookup (name : string) (T : ClassDecl) : list MemberDecl :=
  match declared name T with
  | [] => inherited name T
  | ms => ms
  end.

(** [decltype(&T::name)]: the operand has a type when lookup of the name
    finds a single member and that member is accessible where the probe is
    written, that is public.  When lookup finds nothing the expression is
    ill-formed; when it finds several members (an overloaded name, or a
    name declared in two base classes), [&T::name] stands for a set of
    functions that only a target type could narrow down, and inside
    [decltype] there is none, so the expression is ill-formed as well; and
    naming a member that is not public is ill-formed.  In all these cases
    substitution into the partial specialisation fails. *)
Definition decltype_addr_of (T : ClassDecl) (name : string) : option MemberDecl :=
  match lookup name T with
  | [m] => if mpublic m then Some m else None
  | _ => None
  end.

(** [has_notified<T>], [has_finaliser<T>]: the partial specialisation
    (true_type) is selected when [std::void_t<decltype(&T::name)>] is a
    type, the primary template (false_type) otherwise. *)
Definition has_member (name : string) (T : ClassDecl) : bool :=
  match decltype_addr_of T name with
  | Some _ => true
  | None => false
  end.

Definition has_notified : ClassDecl → bool := has_member "notified".
Definition has_finaliser : ClassDecl → bool := has_member "finaliser".

Definition has_destructor (T : ClassDecl) : bool :=
  negb (ctrivially_destructible T).

(** ** Type-checking a member call [((T* )o)->name(args)] *)

Fixpoint ranks (args : list ArgType) (ps : list CType) : option (list nat) :=
  match args, ps with
  | [], [] => Some []
  | a :: args', p :: ps' =>
      r ← conversion a p; rs ← ranks args' ps'; Some (r :: rs)
  | _, _ => None
  end.

Definition viable (args : list ArgType) (m : MemberDecl) : bool :=
  bool_decide (is_Some (ranks args (mparams m))).

(** [r1] is at least as good as [r2] in every argument. *)
Fixpoint no_worse (r1 r2 : list nat) : bool :=
  match r1, r2 with
  | x :: r1', y :: r2' => bool_decide (x ≤ y)%nat && no_worse r1' r2'
  | _, _ => true
  end.

Definition rank_of (args : list ArgType) (m : MemberDecl) : list nat :=
  default [] (ranks args (mparams m)).

(** Candidates that are no worse than every viable candidate, and not
    merely tied with it. *)
Definition best (args : list ArgType) (cands : list MemberDecl) : list MemberDecl :=
  filter (λ m, Forall (λ m', rank_of args m = rank_of args m'
                             ∨ (no_worse (rank_of args m) (rank_of args m') = true
                                ∧ rank_of args m ≠ rank_of args m')) cands)
         cands.

(** Overload resolution among the members found by name lookup. *)
Definition resolve (cls name : string) (cands : list MemberDecl)
    (args : list ArgType) : build MemberDecl :=
  match filter (λ m, viable args m = true) cands with
  | [] => IllFormed (NoMatchingFunction cls name)
  | [m] => Built m
  | vs => match best args vs with
          | [m] => Built m
          | _ => IllFormed (AmbiguousCall cls name)
          end
  end.

(** A call of a member from [VBase]: overload resolution among the
    members found, then the access check on the one selected. *)
Definition call_member (cls name : string) (cands : list MemberDecl)
    (args : list ArgType) : build MemberDecl :=
  m ← resolve cls name cands args;
  if mpublic m then Built m else IllFormed (Inaccessible cls name).

(** ** What the wrappers do when they run

    The bodies of [T]'s members are user code; what this layer determines
    is which member is entered, on which receiver and with which
    arguments.  Every entry into a member of [T] is recorded in a log. *)

Inductive Callee :=
| Member (name : string)
| Destructor.                      (* ~T() *)

#[global] Instance Callee_eq_dec : EqDecision Callee.
Proof. solve_decision. Defined.

Inductive ArgVal :=
| VObj (p : Ptr)
| VStack (st : ObjectStack).       (* an ObjectStack passed by reference *)

Record MemberCall := {
  call_class : string;
  call_callee : Callee;
  call_this : Ptr;
  call_args : list ArgVal;
}.

Abbreviation Log := (list MemberCall) (only parsing).

Definition enter (T : ClassDecl) (c : Callee) (this : Ptr) (args : list ArgVal)
    (log : Log) : Log :=
  (log ++ [{| call_class := cname T; call_callee := c;
              call_this := this; call_args := args |}])%list.

Definition TraceFn := Ptr → ObjectStack → Log → (ObjectStack * Log)%type.
Definition FinalFn := Ptr → Ptr → ObjectStack → Log → (ObjectStack * Log)%type.
Definition NotifiedFn := Ptr → Log → Log.
Definition DestructorFn := Ptr → Log → Log.

(** [VBase::gc_trace]: [((T* )o)->trace(st)].  Name lookup for [trace]
    in [T] finds [T]'s own declarations when there are any (they hide the
    bases'), and otherwise [VBase::trace], whose body is empty and which
    [VBase] may name although it is private; when another base class
    declares [trace] as well, the name is found in two bases and the lookup
    is ambiguous. *)
Definition gc_trace (T : ClassDecl) : build TraceFn :=
  match declared "trace" T with
  | [] =>
      match inherited "trace" T with
      | [] => Built (λ o st log, (st, log))
      | _ => IllFormed (AmbiguousLookup (cname T) "trace")
      end
  | ms =>
      m ← call_member (cname T) "trace" ms [AObjectStack];
      Built (λ o st log,
        (mbody m o st, enter T (Member "trace") o [VStack st] log))
  end.

(** [VBase::gc_notified]: under [if constexpr (has_notified<T>::value)]
    the call [((T* )o)->notified(o)], else nothing. *)
Definition gc_notified (T : ClassDecl) : build NotifiedFn :=
  if has_notified T then
    m ← call_member (cname T) "notified" (lookup "notified" T) [AObjectPtr];
    Built (λ o log, enter T (Member "notified") o [VObj o] log)
  else
    Built (λ o log, log).

(** [VBase::gc_final]: under [if constexpr (has_finaliser<T>::value)]
    the call [((T* )o)->finaliser(region, sub_regions)], else nothing. *)
Definition gc_final (T : ClassDecl) : build FinalFn :=
  if has_finaliser T then
    m ← call_member (cname T) "finaliser" (lookup "finaliser" T)
          [AObjectPtr; AObjectStack];
    Built (λ o region sub_regions log,
      (mbody m o sub_regions,
       enter T (Member "finaliser") o [VObj region; VStack sub_regions] log))
  else
    Built (λ o region sub_regions log, (sub_regions, log)).

(** [VBase::gc_destructor]: [((T* )o)->~T()], which needs a destructor
    that [VBase] may call. *)
Definition gc_destructor (T : ClassDecl) : build DestructorFn :=
  if cdestructor_usable T then Built (λ o log, enter T Destructor o [] log)
  else IllFormed (UnusableDestructor (cname T)).

(** ** The descriptor *)

(** Build settings the header depends on but does not define. *)
Record BuildConfig := {
  (* size of the object header that precedes every object *)
  header_size : N;
  (* whether NDEBUG is defined, that is whether assert() expands to nothing *)
  NDEBUG : bool;
}.

(** Modelled from the spec: [vsizeof<T>] is defined outside this header; the
    descriptor's size is "the exact storage footprint of T including header
    overhead". *)
Definition vsizeof (cfg : BuildConfig) (T : ClassDecl) : N :=
  header_size cfg + csizeof T.

(** The five fields [desc()] initialises, in the order of its initialiser;
    a null function pointer is [None]. *)
Record Descriptor := {
  size : N;
  trace : option TraceFn;
  finaliser : option FinalFn;
  notified : option NotifiedFn;
  destructor : option DestructorFn;
}.

(** The initialiser of [static Descriptor desc] in [VBase::desc].  All four
    wrappers are named in it, so all four are instantiated, whichever way
    the conditional expressions go. *)
Definition desc_init (cfg : BuildConfig) (T : ClassDecl) : build Descriptor :=
  tr ← gc_trace T;
  fi ← gc_final T;
  no ← gc_notified T;
  de ← gc_destructor T;
  Built {| size := vsizeof cfg T;
           trace := Some tr;
           finaliser := if has_finaliser T then Some fi else None;
           notified := if has_notified T then Some no else None;
           destructor := if has_destructor T then Some de else None |}.

(** ** Run-time state *)

(** The two bases [VBase<T, Base>] is instantiated with. *)
Inductive BaseKind := BObject | BCown.

#[global] Instance BaseKind_eq_dec : EqDecision BaseKind.
Proof. solve_decision. Defined.

#[global] Instance BaseKind_countable : Countable BaseKind.
Proof.
  apply (inj_countable' (λ b, match b with BObject => false | BCown => true end)
                        (λ x : bool, if x then BCown else BObject)).
  by intros [].
Defined.

(** Address of the function-local [static Descriptor desc] of
    [VBase<T, Base>::desc]: one object per instantiation. *)
Abbreviation StaticAddr := (string * BaseKind)%type (only parsing).

Definition desc_addr (T : ClassDecl) (B : BaseKind) : StaticAddr := (cname T, B).

Abbreviation AllocId := N (only parsing).
Abbreviation RegionType := N (only parsing).   (* the enumeration of region_api.h *)

Record Block := {
  blk_alloc : AllocId;
  blk_base : Ptr;
  blk_size : N;
}.

Record State := {
  (* function-local statics that have been initialised *)
  statics : gmap StaticAddr Descriptor;
  (* the allocator ThreadAlloc::get() returns on the running thread *)
  thread_alloc : AllocId;
  (* blocks handed out by the allocators, and the next free address *)
  blocks : list Block;
  brk : Ptr;
  (* object address ↦ descriptor its header was registered with *)
  headers : gmap Ptr StaticAddr;
  (* entry-point objects of the regions created so far *)
  roots : gmap Ptr RegionType;
  (* entries into members of user classes *)
  log : Log;
}.

Definition set_statics (f : gmap StaticAddr Descriptor → gmap StaticAddr Descriptor)
    (s : State) : State :=
  {| statics := f (statics s); thread_alloc := thread_alloc s;
     blocks := blocks s; brk := brk s; headers := headers s;
     roots := roots s; log := log s |}.

Definition set_headers (f : gmap Ptr StaticAddr → gmap Ptr StaticAddr)
    (s : State) : State :=
  {| statics := statics s; thread_alloc := thread_alloc s;
     blocks := blocks s; brk := brk s; headers := f (headers s);
     roots := roots s; log := log s |}.

Definition set_roots (f : gmap Ptr RegionType → gmap Ptr RegionType)
    (s : State) : State :=
  {| statics := statics s; thread_alloc := thread_alloc s;
     blocks := blocks s; brk := brk s; headers := headers s;
     roots := f (roots s); log := log s |}.

Definition set_log (f : Log → Log) (s : State) : State :=
  {| statics := statics s; thread_alloc := thread_alloc s;
     blocks := blocks s; brk := brk s; headers := headers s;
     roots := roots s; log := f (log s) |}.

Definition init_state : State :=
  {| statics := ∅; thread_alloc := 0; blocks := []; brk := 4096;
     headers := ∅; roots := ∅; log := [] |}.

(** What a call can end in: a value and a new state, [abort()] from a failed
    assertion, or undefined behaviour (a null or dangling pointer used). *)
Inductive outcome (A : Type) :=
| Ret (a : A) (s : State)
| Aborted
| Undefined.
Arguments Ret {A} a s.
Arguments Aborted {A}.
Arguments Undefined {A}.

Definition obind {A B} (m : outcome A) (k : A → State → outcome B) : outcome B :=
  match m with
  | Ret a s => k a s
  | Aborted => Aborted
  | Undefined => Undefined
  end.

Definition final_state {A} (m : outcome A) : option State :=
  match m with Ret _ s => Some s | _ => None end.

(** ** The collaborators of region_api.h *)

(** Modelled from the spec: [thread_local_allocate(size) -> memory] and
    [explicit_allocate(allocator, size) -> memory] (snmalloc's
    [Alloc::alloc]); the allocator hands out a fresh block of [sz] bytes. *)
Definition alloc (a : AllocId) (sz : N) (s : State) : Ptr * State :=
  (brk s,
   {| statics := statics s; thread_alloc := thread_alloc s;
      blocks := {| blk_alloc := a; blk_base := brk s; blk_size := sz |} :: blocks s;
      brk := brk s + sz; headers := headers s; roots := roots s; log := log s |}).

(** Modelled from the spec: [register_object(memory, descriptor) -> handle]
    ([Object::register_object]).  As the comment in [VCown::operator new]
    says, it "advances the pointer forward from that returned by the
    allocator": the object starts after the header, and the header records
    the descriptor. *)
Definition register_object (cfg : BuildConfig) (base : Ptr) (d : StaticAddr)
    (s : State) : Ptr * State :=
  let o := base + header_size cfg in
  (o, set_headers (<[o := d]>) s).

(** Modelled from the spec: [create_object(descriptor) -> memory]
    ([api::create_object]): memory of the descriptor's size from the
    running thread's allocator, registered against the descriptor. *)
Definition create_object (cfg : BuildConfig) (d : StaticAddr) (s : State)
    : outcome Ptr :=
  match statics s !! d with
  | Some dsc =>
      let '(base, s1) := alloc (thread_alloc s) (size dsc) s in
      let '(o, s2) := register_object cfg base d s1 in
      Ret o s2
  | None => Undefined
  end.

(** Modelled from the spec: [create_fresh_region(kind, descriptor) -> memory]
    ([api::create_fresh_region]): as [create_object], and the object
    becomes the root of a new region of the given kind. *)
Definition create_fresh_region (cfg : BuildConfig) (rt : RegionType)
    (d : StaticAddr) (s : State) : outcome Ptr :=
  obind (create_object cfg d s) (λ o s1, Ret o (set_roots (<[o := rt]>) s1)).

(** ** The run-time functions of vobject.h *)

(** [VBase<T, Base>::desc()]: the static is initialised the first time
    control passes through its declaration; the function returns its
    address. *)
Definition VBase_desc (cfg : BuildConfig) (T : ClassDecl) (B : BaseKind)
    : build (State → StaticAddr * State) :=
  d ← desc_init cfg T;
  Built (λ s,
    let a := desc_addr T B in
    match statics s !! a with
    | Some _ => (a, s)
    | None => (a, set_statics (<[a := d]>) s)
    end).

(** [assert(c)]: nothing under NDEBUG, [abort()] when [c] is false
    otherwise. *)
Definition assert {A} (cfg : BuildConfig) (c : bool) (k : outcome A) : outcome A :=
  if NDEBUG cfg then k else if c then k else Aborted.

(** [V<T>::operator new(size_t)] *)
Definition V_operator_new (cfg : BuildConfig) (T : ClassDecl)
    : build (N → State → outcome Ptr) :=
  desc ← VBase_desc cfg T BObject;
  Built (λ _ s, let '(d, s1) := desc s in create_object cfg d s1).

(** [V<T>::operator new(size_t, RegionType rt)] *)
Definition V_operator_new_region (cfg : BuildConfig) (T : ClassDecl)
    : build (N → RegionType → State → outcome Ptr) :=
  desc ← VBase_desc cfg T BObject;
  Built (λ _ rt s, let '(d, s1) := desc s in create_fresh_region cfg rt d s1).

(** [VCown<T>::operator new(size_t)] *)
Definition VCown_operator_new (cfg : BuildConfig) (T : ClassDecl)
    : build (N → State → outcome Ptr) :=
  desc ← VBase_desc cfg T BCown;
  Built (λ _ s,
    let '(base, s1) := alloc (thread_alloc s) (vsizeof cfg T) s in
    let '(d, s2) := desc s1 in
    let '(o, s3) := register_object cfg base d s2 in
    Ret o s3).

(** [VCown<T>::operator new(size_t, Alloc& alloc)] *)
Definition VCown_operator_new_alloc (cfg : BuildConfig) (T : ClassDecl)
    : build (N → AllocId → State → outcome Ptr) :=
  desc ← VBase_desc cfg T BCown;
  Built (λ _ a s,
    let '(base, s1) := alloc a (vsizeof cfg T) s in
    let '(d, s2) := desc s1 in
    let '(o, s3) := register_object cfg base d s2 in
    Ret o s3).

(** [VCown<T>::operator new(size_t base_size, size_t req_size)] *)
Definition VCown_operator_new_sized (cfg : BuildConfig) (T : ClassDecl)
    : build (N → N → State → outcome Ptr) :=
  desc ← VBase_desc cfg T BCown;
  Built (λ (base_size req_size : N) s,
    assert cfg (bool_decide (base_size ≤ req_size)%N)
      (let '(base, s1) := alloc (thread_alloc s) req_size s in
       let '(d, s2) := desc s1 in
       let '(o, s3) := register_object cfg base d s2 in
       Ret o s3)).

(** The six [VBase::operator delete] overloads; every body is empty. *)
Definition VBase_operator_delete (p : Ptr) (s : State) : State := s.
Definition VBase_operator_delete_size (p : Ptr) (sz : N) (s : State) : State := s.
Definition VBase_operator_delete_alloc (p : Ptr) (a : AllocId) (s : State) : State := s.
Definition VBase_operator_delete_object (p : Ptr) (o : Ptr) (s : State) : State := s.
Definition VBase_operator_delete_alloc_object (p : Ptr) (a : AllocId) (o : Ptr)
    (s : State) : State := s.
Definition VBase_operator_delete_region (p : Ptr) (rt : RegionType) (s : State)
    : State := s.

(** ** Allocation and deallocation functions as declarations

    What a new-expression or delete-expression on a class derived from
    [V<T>] or [VCown<T>] selects.  Lookup of the operator's name starts in
    the adapter and continues in [VBase]; the first scope that declares
    the name decides. *)

Inductive OperatorName := OpNew | OpNewArray | OpDelete | OpDeleteArray.

#[global] Instance OperatorName_eq_dec : EqDecision OperatorName.
Proof. solve_decision. Defined.

Inductive ParamType := PSize | PVoidPtr | PAllocRef | PObjectPtr | PRegionType.

#[global] Instance ParamType_eq_dec : EqDecision ParamType.
Proof. solve_decision. Defined.

Record OperatorDecl := {
  op_name : OperatorName;
  op_params : list ParamType;
  op_deleted : bool;                (* declared [= delete] *)
}.

Definition VBase_operators : list OperatorDecl :=
  [ {| op_name := OpDelete; op_params := [PVoidPtr]; op_deleted := false |};
    {| op_name := OpDelete; op_params := [PVoidPtr; PSize]; op_deleted := false |};
    {| op_name := OpDelete; op_params := [PVoidPtr; PAllocRef]; op_deleted := false |};
    {| op_name := OpDelete; op_params := [PVoidPtr; PObjectPtr]; op_deleted := false |};
    {| op_name := OpDelete; op_params := [PVoidPtr; PAllocRef; PObjectPtr];
       op_deleted := false |};
    {| op_name := OpDelete; op_params := [PVoidPtr; PRegionType]; op_deleted := false |};
    {| op_name := OpNewArray; op_params := [PSize]; op_deleted := true |};
    {| op_name := OpDeleteArray; op_params := [PVoidPtr]; op_deleted := true |};
    {| op_name := OpDeleteArray; op_params := [PVoidPtr; PSize]; op_deleted := true |} ].

Definition V_operators : list OperatorDecl :=
  [ {| op_name := OpNew; op_params := [PSize]; op_deleted := false |};
    {| op_name := OpNew; op_params := [PSize; PRegionType]; op_deleted := false |} ].

Definition VCown_operators : list OperatorDecl :=
  [ {| op_name := OpNew; op_params := [PSize]; op_deleted := false |};
    {| op_name := OpNew; op_params := [PSize; PAllocRef]; op_deleted := false |};
    {| op_name := OpNew; op_params := [PSize; PSize]; op_deleted := false |} ].

Definition adapter_operators (B : BaseKind) : list OperatorDecl :=
  match B with BObject => V_operators | BCown => VCown_operators end.

Definition named (n : OperatorName) (ds : list OperatorDecl) : list OperatorDecl :=
  filter (λ d, op_name d = n) ds.

(** Class-scope lookup: the adapter's declarations hide the base's. *)
Definition lookup_operator (B : BaseKind) (n : OperatorName) : list OperatorDecl :=
  match named n (adapter_operators B) with
  | [] => named n VBase_operators
  | ds => ds
  end.

Definition operator_string (n : OperatorName) : string :=
  match n with
  | OpNew => "operator new"
  | OpNewArray => "operator new[]"
  | OpDelete => "operator delete"
  | OpDeleteArray => "operator delete[]"
  end.

(** Select among the declarations found the one whose parameters are the
    argument types; selecting a deleted function is an error. *)
Definition select_operator (B : BaseKind) (n : OperatorName)
    (args : list ParamType) : build OperatorDecl :=
  match filter (λ d, op_params d = args) (lookup_operator B n) with
  | d :: _ =>
      if op_deleted d then IllFormed (UseOfDeletedFunction (operator_string n))
      else Built d
  | [] => IllFormed (NoMatchingFunction "VBase" (operator_string n))
  end.

(** [new (placement...) C] and [new (placement...) C[n]] for a class [C]
    derived from the adapter: the allocation function is called with the
    size followed by the placement arguments. *)
Definition new_expression (B : BaseKind) (array : bool)
    (placement : list ParamType) : build OperatorDecl :=
  select_operator B (if array then OpNewArray else OpNew) (PSize :: placement).

(** [delete p] and [delete[] p]: of the class's usual deallocation
    functions the one without a size parameter is used. *)
Definition delete_expression (B : BaseKind) (array : bool) : build OperatorDecl :=
  select_operator B (if array then OpDeleteArray else OpDelete) [PVoidPtr].

(** ** The operations of the layer, as the runtime and user code reach them *)

Inductive Op :=
| CallDesc (T : ClassDecl) (B : BaseKind)
| CallVNew (T : ClassDecl) (sz : N)
| CallVNewRegion (T : ClassDecl) (sz : N) (rt : RegionType)
| CallCownNew (T : ClassDecl) (sz : N)
| CallCownNewAlloc (T : ClassDecl) (sz : N) (a : AllocId)
| CallCownNewSized (T : ClassDecl) (base_size req_size : N)
| CallDelete (p : Ptr)
| CallDeleteSize (p : Ptr) (sz : N)
| CallDeleteAlloc (p : Ptr) (a : AllocId)
| CallDeleteObject (p o : Ptr)
| CallDeleteAllocObject (p : Ptr) (a : AllocId) (o : Ptr)
| CallDeleteRegion (p : Ptr) (rt : RegionType)
  (* the runtime calling through a descriptor's function pointers *)
| CallTraceFn (d : StaticAddr) (o : Ptr) (st : ObjectStack)
| CallFinaliseFn (d : StaticAddr) (o region : Ptr) (sub_regions : ObjectStack)
| CallNotifiedFn (d : StaticAddr) (o : Ptr)
| CallDestructorFn (d : StaticAddr) (o : Ptr).

Definition discard {A} (m : outcome A) : outcome unit :=
  obind m (λ _ s, Ret () s).

(** Call through a function pointer read from the descriptor at [d]. *)
Definition through {F} (field : Descriptor → option F) (d : StaticAddr)
    (run : F → Log → Log) (s : State) : outcome unit :=
  match statics s !! d with
  | Some dsc =>
      match field dsc with
      | Some f => Ret () (set_log (run f) s)
      | None => Undefined
      end
  | None => Undefined
  end.

Definition exec (cfg : BuildConfig) (op : Op) : build (State → outcome unit) :=
  match op with
  | CallDesc T B =>
      f ← VBase_desc cfg T B; Built (λ s, Ret () (f s).2)
  | CallVNew T sz =>
      f ← V_operator_new cfg T; Built (λ s, discard (f sz s))
  | CallVNewRegion T sz rt =>
      f ← V_operator_new_region cfg T; Built (λ s, discard (f sz rt s))
  | CallCownNew T sz =>
      f ← VCown_operator_new cfg T; Built (λ s, discard (f sz s))
  | CallCownNewAlloc T sz a =>
      f ← VCown_operator_new_alloc cfg T; Built (λ s, discard (f sz a s))
  | CallCownNewSized T base_size req_size =>
      f ← VCown_operator_new_sized cfg T;
      Built (λ s, discard (f base_size req_size s))
  | CallDelete p => Built (λ s, Ret () (VBase_operator_delete p s))
  | CallDeleteSize p sz => Built (λ s, Ret () (VBase_operator_delete_size p sz s))
  | CallDeleteAlloc p a => Built (λ s, Ret () (VBase_operator_delete_alloc p a s))
  | CallDeleteObject p o => Built (λ s, Ret () (VBase_operator_delete_object p o s))
  | CallDeleteAllocObject p a o =>
      Built (λ s, Ret () (VBase_operator_delete_alloc_object p a o s))
  | CallDeleteRegion p rt => Built (λ s, Ret () (VBase_operator_delete_region p rt s))
  | CallTraceFn d o st =>
      Built (through trace d (λ f l, (f o st l).2))
  | CallFinaliseFn d o region sub_regions =>
      Built (through finaliser d (λ f l, (f o region sub_regions l).2))
  | CallNotifiedFn d o =>
      Built (through notified d (λ f l, f o l))
  | CallDestructorFn d o =>
      Built (through destructor d (λ f l, f o l))
  end.

(** [steps cfg s ops s']: the operations [ops], all well-formed, run one
    after the other from [s] without aborting and end in [s']. *)
Inductive steps (cfg : BuildConfig) : State → list Op → State → Prop :=
| steps_nil s : steps cfg s [] s
| steps_cons s op f s1 ops s2 :
    exec cfg op = Built f →
    f s = Ret () s1 →
    steps cfg s1 ops s2 →
    steps cfg s (op :: ops) s2.

(** Every initialised static holds a descriptor [desc_init] built. *)
Definition statics_built (cfg : BuildConfig) (s : State) : Prop :=
  ∀ a d, statics s !! a = Some d → ∃ T, desc_init cfg T = Built d.

(** Number of entries into a destructor recorded in a log. *)
Definition destructions (l : Log) : nat :=
  length (filter (λ c, call_callee c = Destructor) l).

(** ** Example classes *)

Definition no_stack_effect : Ptr → ObjectStack → ObjectStack := λ _ st, st.

(** The configuration of a 64-bit debug build: a header of two words. *)
Definition debug64 : BuildConfig := {| header_size := 16; NDEBUG := false |}.
Definition release64 : BuildConfig := {| header_size := 16; NDEBUG := true |}.

(** [struct Leaf : V<Leaf> { int x; };] *)
Definition Leaf : ClassDecl :=
  {| cname := "Leaf"; csizeof := 24; cmembers := []; cinherited := [];
     ctrivially_destructible := true; cdestructor_usable := true |}.

(** A class with both hooks of the expected shape, a trace function that
    pushes the object's single field, and a user-written destructor. *)
Definition Node : ClassDecl :=
  {| cname := "Node"; csizeof := 32;
     cmembers :=
       [ {| mname := "trace"; mparams := [TObjectStackRef];
            mpublic := true; mbody := λ this st, (this + 24) :: st |};
         {| mname := "notified"; mparams := [TObjectPtr];
            mpublic := true; mbody := no_stack_effect |};
         {| mname := "finaliser"; mparams := [TObjectPtr; TObjectStackRef];
            mpublic := true; mbody := no_stack_effect |} ];
     cinherited := [];
     ctrivially_destructible := false; cdestructor_usable := true |}.

(** [void notified(int)]: the right name, the wrong shape. *)
Definition BadShape : ClassDecl :=
  {| cname := "BadShape"; csizeof := 16;
     cmembers := [ {| mname := "notified"; mparams := [TInt];
                      mpublic := true; mbody := no_stack_effect |} ];
     cinherited := [];
     ctrivially_destructible := true; cdestructor_usable := true |}.

(** [void notified(Object* ); void notified(int);]: an overloaded hook. *)
Definition Overloaded : ClassDecl :=
  {| cname := "Overloaded"; csizeof := 16;
     cmembers := [ {| mname := "notified"; mparams := [TObjectPtr];
                      mpublic := true; mbody := no_stack_effect |};
                   {| mname := "notified"; mparams := [TInt];
                      mpublic := true; mbody := no_stack_effect |};
                   {| mname := "finaliser"; mparams := [TObjectPtr; TObjectStackRef];
                      mpublic := true; mbody := no_stack_effect |};
                   {| mname := "finaliser"; mparams := [];
                      mpublic := true; mbody := no_stack_effect |} ];
     cinherited := [];
     ctrivially_destructible := true; cdestructor_usable := true |}.

(** * Properties *)

(** ** Instantiation *)

Lemma bind_built {A B} (m : build A) (k : A → build B) (b : B) :
  m ≫= k = Built b → ∃ a, m = Built a ∧ k a = Built b.
Proof. destruct m as [a|e]; [by exists a | done]. Qed.

Lemma declares_declared name T :
  declares name T ↔ declared name T ≠ [].
Proof.
  unfold declares, declared. split.
  - intros (m & Hin & Hn) Hnil.
    assert (m ∈ filter (λ m, mname m = name) (cmembers T)) as Hf
      by (apply list_elem_of_filter; done).
    rewrite Hnil in Hf. by apply not_elem_of_nil in Hf.
  - intros Hne. destruct (filter _ _) as [|m l] eqn:E; [done|].
    assert (m ∈ filter (λ m, mname m = name) (cmembers T)) as Hf
      by (rewrite E; left).
    apply list_elem_of_filter in Hf as [? ?]. by exists m.
Qed.

Lemma lookup_declared name T :
  declared name T ≠ [] → lookup name T = declared name T.
Proof. unfold lookup. by destruct (declared name T). Qed.

Lemma lookup_inherited name T :
  declared name T = [] → lookup name T = inherited name T.
Proof. unfold lookup. by intros ->. Qed.

(** The capability probe answers "yes" exactly for a name that lookup
    resolves to one member, which is public. *)
Lemma has_member_unique name T :
  has_member name T = true ↔ ∃ m, lookup name T = [m] ∧ mpublic m = true.
Proof.
  unfold has_member, decltype_addr_of.
  destruct (lookup name T) as [|m [|m' l]]; split; try done.
  - by intros (? & ? & ?).
  - destruct (mpublic m) eqn:E; [|done]. by exists m.
  - intros (m0 & [= <-] & ->). done.
  - by intros (? & ? & ?).
Qed.

Lemma lookup_nil_has_member name T :
  lookup name T = [] → has_member name T = false.
Proof.
  intros Hn. destruct (has_member name T) eqn:E; [|done].
  apply has_member_unique in E as (m & Hm & _). congruence.
Qed.

(** A single candidate is selected exactly when it is viable. *)
Lemma resolve_single cls name m args :
  resolve cls name [m] args =
    if viable args m then Built m else IllFormed (NoMatchingFunction cls name).
Proof.
  unfold resolve. rewrite filter_cons, filter_nil.
  destruct (viable args m); by rewrite ?decide_True, ?decide_False by done.
Qed.

(** What [desc()]'s initialiser needs, and what it yields. *)
Lemma desc_init_built cfg T d :
  desc_init cfg T = Built d →
  ∃ tr fi no de,
    gc_trace T = Built tr ∧ gc_final T = Built fi ∧
    gc_notified T = Built no ∧ gc_destructor T = Built de ∧
    d = {| size := vsizeof cfg T;
           trace := Some tr;
           finaliser := if has_finaliser T then Some fi else None;
           notified := if has_notified T then Some no else None;
           destructor := if has_destructor T then Some de else None |}.
Proof.
  unfold desc_init. intros H.
  apply bind_built in H as (tr & Htr & H).
  apply bind_built in H as (fi & Hfi & H).
  apply bind_built in H as (no & Hno & H).
  apply bind_built in H as (de & Hde & H).
  exists tr, fi, no, de. by inversion H.
Qed.

Lemma call_member_single cls name m args :
  call_member cls name [m] args =
    if viable args m
    then if mpublic m then Built m else IllFormed (Inaccessible cls name)
    else IllFormed (NoMatchingFunction cls name).
Proof.
  unfold call_member. rewrite resolve_single. by destruct (viable args m).
Qed.

Lemma gc_notified_built T no :
  gc_notified T = Built no →
  no = (if has_notified T
        then λ o l, enter T (Member "notified") o [VObj o] l
        else λ o l, l).
Proof.
  unfold gc_notified. destruct (has_notified T).
  - intros (m & _ & H)%bind_built. by inversion H.
  - intros H. by inversion H.
Qed.

Lemma gc_final_built T fi :
  gc_final T = Built fi →
  if has_finaliser T
  then ∃ m, lookup "finaliser" T = [m] ∧
            viable [AObjectPtr; AObjectStack] m = true ∧
            fi = λ o region sub_regions l,
                   (mbody m o sub_regions,
                    enter T (Member "finaliser") o
                          [VObj region; VStack sub_regions] l)
  else fi = λ o region sub_regions l, (sub_regions, l).
Proof.
  unfold gc_final. destruct (has_finaliser T) eqn:E.
  - apply has_member_unique in E as (m & Hm & Hp).
    rewrite Hm, call_member_single, Hp.
    destruct (viable _ m) eqn:Hv; [|done].
    intros H. exists m. by inversion H.
  - intros H. by inversion H.
Qed.

Lemma gc_destructor_built T de :
  gc_destructor T = Built de → de = λ o l, enter T Destructor o [] l.
Proof.
  unfold gc_destructor. destruct (cdestructor_usable T); [|done].
  intros H. by inversion H.
Qed.



(** The descriptor of [Leaf] in a 64-bit build. *)
Definition Leaf_descriptor : Descriptor :=
  {| size := 40;
     trace := Some (λ o st l, (st, l));
     finaliser := None; notified := None; destructor := None |}.

Example Leaf_desc_init : desc_init debug64 Leaf = Built Leaf_descriptor.
Proof. reflexivity. Qed.

(** [void notified(int); void notified();]: two members under the hook's
    name, neither callable with an [Object*]. *)
Definition OverloadedBadShape : ClassDecl :=
  {| cname := "OverloadedBadShape"; csizeof := 16;
     cmembers := [ {| mname := "notified"; mparams := [TInt];
                      mpublic := true; mbody := no_stack_effect |};
                   {| mname := "notified"; mparams := [];
                      mpublic := true; mbody := no_stack_effect |} ];
     cinherited := [];
     ctrivially_destructible := true; cdestructor_usable := true |}.

(** ** The hooks in the descriptor *)

(** The conditional expressions of [desc()] follow the capability probes,
    and a wired wrapper enters the member of [T] with the arguments it was
    called with. *)
Lemma hooks_follow_probe cfg T d :
  desc_init cfg T = Built d →
  (is_Some (finaliser d) ↔ has_finaliser T = true) ∧
  (is_Some (notified d) ↔ has_notified T = true) ∧
  (∀ fi, finaliser d = Some fi → ∀ o region sub_regions l,
     (fi o region sub_regions l).2 =
       enter T (Member "finaliser") o [VObj region; VStack sub_regions] l) ∧
  (∀ no, notified d = Some no → ∀ o l,
     no o l = enter T (Member "notified") o [VObj o] l).
Proof.
  intros (tr & fi & no & de & _ & Hfi & Hno & _ & ->)%desc_init_built. simpl.
  apply gc_notified_built in Hno. apply gc_final_built in Hfi.
  destruct (has_finaliser T), (has_notified T); simpl;
    repeat split; try done; try (by intros [? ?]); try (by eexists);
    intros ? [= <-]; intros; subst; try done;
    by destruct Hfi as (m & _ & _ & ->).
Qed.

(** A class in which lookup finds nothing under a hook's name gets a null
    pointer. *)
Lemma undeclared_hook_null cfg T d :
  desc_init cfg T = Built d →
  (lookup "finaliser" T = [] → finaliser d = None) ∧
  (lookup "notified" T = [] → notified d = None).
Proof.
  intros (tr & fi & no & de & _ & _ & _ & _ & ->)%desc_init_built. simpl.
  split; intros Hn.
  - unfold has_finaliser. by rewrite (lookup_nil_has_member _ _ Hn).
  - unfold has_notified. by rewrite (lookup_nil_has_member _ _ Hn).
Qed.

(** A class in which lookup finds exactly one member under a hook's name,
    a public one, gets the wrapper, whatever the member's parameter
    list. *)
Lemma single_hook_wired cfg T d :
  desc_init cfg T = Built d →
  ((∃ m, lookup "finaliser" T = [m] ∧ mpublic m = true) →
   is_Some (finaliser d)) ∧
  ((∃ m, lookup "notified" T = [m] ∧ mpublic m = true) →
   is_Some (notified d)).
Proof.
  intros H. destruct (hooks_follow_probe _ _ _ H) as (Hf & Hn & _).
  split; intros Hm%has_member_unique; [by apply Hf | by apply Hn].
Qed.

(** A single public member under a hook's name that cannot take the
    wrapper's arguments makes the instantiation of [desc()] ill-formed. *)
Lemma single_hook_wrong_shape_fails cfg T m :
  (lookup "notified" T = [m] ∧ mpublic m = true ∧
   viable [AObjectPtr] m = false) ∨
  (lookup "finaliser" T = [m] ∧ mpublic m = true ∧
   viable [AObjectPtr; AObjectStack] m = false) →
  is_built (desc_init cfg T) = false.
Proof.
  intros H. unfold desc_init.
  destruct (gc_trace T) as [tr|]; [simpl|done].
  destruct H as [(Hd & Hp & Hv)|(Hd & Hp & Hv)].
  - destruct (gc_final T) as [fi|]; [simpl|done].
    unfold gc_notified, has_notified.
    rewrite (proj2 (has_member_unique "notified" T)) by eauto.
    by rewrite Hd, call_member_single, Hv.
  - unfold gc_final, has_finaliser.
    rewrite (proj2 (has_member_unique "finaliser" T)) by eauto.
    by rewrite Hd, call_member_single, Hv.
Qed.

Example BadShape_fails : desc_init debug64 BadShape
                         = IllFormed (NoMatchingFunction "BadShape" "notified").
Proof. reflexivity. Qed.

(** C2, at a class that overloads both hooks: the class declares members
    named [finaliser] and [notified], one of each with the expected
    parameters, yet both probes answer no, the descriptor is built, and
    its finaliser and notified pointers are null. *)
Theorem overloaded_hooks_not_wired :
  declares "finaliser" Overloaded ∧ declares "notified" Overloaded ∧
  (∃ m, m ∈ declared "finaliser" Overloaded ∧
        viable [AObjectPtr; AObjectStack] m = true) ∧
  (∃ m, m ∈ declared "notified" Overloaded ∧ viable [AObjectPtr] m = true) ∧
  has_finaliser Overloaded = false ∧ has_notified Overloaded = false ∧
  ∃ d, desc_init debug64 Overloaded = Built d ∧
       finaliser d = None ∧ notified d = None.
Proof.
  split; [|split]; [apply declares_declared; by vm_compute..|].
  split; [|split].
  - eexists. split; [left|reflexivity].
  - eexists. split; [left|reflexivity].
  - repeat split. eexists. repeat split.
Qed.

(** C9, at a class with two members named [notified], neither of which
    can be called with an [Object*]: the probe answers no, nothing fails
    to build, and the descriptor's notified pointer is null. *)
Theorem overloaded_wrong_shape_builds :
  declares "notified" OverloadedBadShape ∧
  Forall (λ m, viable [AObjectPtr] m = false)
         (declared "notified" OverloadedBadShape) ∧
  has_notified OverloadedBadShape = false ∧
  ∃ d, desc_init debug64 OverloadedBadShape = Built d ∧ notified d = None.
Proof.
  split; [apply declares_declared; by vm_compute|].
  split; [by repeat constructor|].
  split; [reflexivity|]. eexists. split; reflexivity.
Qed.

(** ** Tracing *)



(** ** Destruction *)

(** C4: the descriptor's destructor pointer is null exactly for a
    trivially destructible class; a non-null one, when called on an object,
    enters the class's destructor on that object once and does nothing
    else. *)
Theorem destroy_fn_iff_not_trivial cfg T d :
  desc_init cfg T = Built d →
  (destructor d = None ↔ ctrivially_destructible T = true) ∧
  (∀ de, destructor d = Some de → ∀ o l,
     de o l = (l ++ [{| call_class := cname T; call_callee := Destructor;
                        call_this := o; call_args := [] |}])%list ∧
     destructions (de o l) = S (destructions l)).
Proof.
  intros (tr & fi & no & de & _ & _ & _ & Hde & ->)%desc_init_built. simpl.
  apply gc_destructor_built in Hde. subst de. unfold has_destructor.
  destruct (ctrivially_destructible T); simpl.
  - split; [done|]. intros ? [=].
  - split; [by split|]. intros ? [= <-] o l. split; [done|].
    unfold destructions, enter. rewrite list.filter_app, length_app. simpl. lia.
Qed.

(** [struct Resource : VCown<Resource> { std::vector<int> data; };]: no
    hooks, but a destructor that has work to do. *)
Definition Resource : ClassDecl :=
  {| cname := "Resource"; csizeof := 48; cmembers := []; cinherited := [];
     ctrivially_destructible := false; cdestructor_usable := true |}.

Definition Resource_descriptor : Descriptor :=
  {| size := 64;
     trace := Some (λ o st l, (st, l));
     finaliser := None; notified := None;
     destructor := Some (λ o l, enter Resource Destructor o [] l) |}.

Lemma destroy_fn_iff_not_trivial_witness :
  (destructor Resource_descriptor = None ↔ ctrivially_destructible Resource = true) ∧
  (∀ de, destructor Resource_descriptor = Some de → ∀ o l,
     de o l = (l ++ [{| call_class := cname Resource; call_callee := Destructor;
                        call_this := o; call_args := [] |}])%list ∧
     destructions (de o l) = S (destructions l)).
Proof.
  apply (destroy_fn_iff_not_trivial debug64 Resource Resource_descriptor).
  reflexivity.
Defined.

(** ** The static descriptor *)

Lemma VBase_desc_built cfg T B get :
  VBase_desc cfg T B = Built get →
  ∃ d, desc_init cfg T = Built d ∧
       get = λ s, match statics s !! desc_addr T B with
                  | Some _ => (desc_addr T B, s)
                  | None => (desc_addr T B,
                             set_statics (<[desc_addr T B := d]>) s)
                  end.
Proof.
  unfold VBase_desc. intros (d & Hd & H)%bind_built.
  exists d. split; [done|]. by inversion H.
Qed.

Lemma VBase_desc_of_init cfg T B d :
  desc_init cfg T = Built d →
  VBase_desc cfg T B =
    Built (λ s, match statics s !! desc_addr T B with
                | Some _ => (desc_addr T B, s)
                | None => (desc_addr T B,
                           set_statics (<[desc_addr T B := d]>) s)
                end).
Proof. unfold VBase_desc. by intros ->. Qed.

(** How one operation may change the statics: not at all, or by
    initialising one that was not initialised yet. *)
Definition statics_step (cfg : BuildConfig) (s s' : State) : Prop :=
  statics s' = statics s ∨
  ∃ T B d, desc_init cfg T = Built d ∧
           statics s !! desc_addr T B = None ∧
           statics s' = <[desc_addr T B := d]> (statics s).

Lemma statics_step_keeps cfg s s' a d :
  statics_step cfg s s' → statics s !! a = Some d → statics s' !! a = Some d.
Proof.
  intros [->|(T & B & d' & _ & Hnone & ->)] Ha; [done|].
  rewrite lookup_insert_ne; [done|]. intros <-. congruence.
Qed.

Lemma statics_step_built cfg s s' :
  statics_step cfg s s' → statics_built cfg s → statics_built cfg s'.
Proof.
  unfold statics_built.
  intros [->|(T & B & d' & Hd & _ & ->)] Hb; [done|].
  intros a d. rewrite lookup_insert. case_decide.
  - intros [= <-]. eauto.
  - apply Hb.
Qed.

Lemma desc_get_step cfg T B get s :
  VBase_desc cfg T B = Built get →
  (get s).1 = desc_addr T B ∧
  is_Some (statics (get s).2 !! desc_addr T B) ∧
  statics_step cfg s (get s).2 ∧
  thread_alloc (get s).2 = thread_alloc s ∧ blocks (get s).2 = blocks s ∧
  brk (get s).2 = brk s ∧ headers (get s).2 = headers s ∧
  roots (get s).2 = roots s ∧ log (get s).2 = log s.
Proof.
  intros (d & Hd & ->)%VBase_desc_built.
  destruct (statics s !! desc_addr T B) eqn:E; simpl.
  - rewrite E. repeat split; eauto. by left.
  - rewrite lookup_insert_eq. repeat split; eauto.
    right. by exists T, B, d.
Qed.

(** ** Allocation *)

(** The effect every allocation function has: a block of [sz] bytes from
    allocator [a], the object placed after the header, and the header
    registered with the descriptor of [VBase<T, B>]. *)
Definition allocated_as (cfg : BuildConfig) (T : ClassDecl) (B : BaseKind)
    (a : AllocId) (sz : N) (s : State) (o : Ptr) (s' : State) : Prop :=
  o = brk s + header_size cfg ∧
  headers s' = <[o := desc_addr T B]> (headers s) ∧
  blocks s' = {| blk_alloc := a; blk_base := brk s; blk_size := sz |} :: blocks s ∧
  brk s' = brk s + sz ∧
  statics_step cfg s s' ∧
  is_Some (statics s' !! desc_addr T B) ∧
  log s' = log s ∧ thread_alloc s' = thread_alloc s.

Lemma alloc_then_register cfg T B get a sz s :
  VBase_desc cfg T B = Built get →
  ∃ o s',
    (let '(base, s1) := alloc a sz s in
     let '(d, s2) := get s1 in
     let '(o, s3) := register_object cfg base d s2 in
     Ret o s3) = Ret o s' ∧
    allocated_as cfg T B a sz s o s' ∧ roots s' = roots s.
Proof.
  intros Hget. unfold alloc.
  match goal with |- context [get ?s1] => set (s1' := s1) end.
  destruct (desc_get_step cfg T B get s1' Hget)
    as (Ha & Hsome & Hstep & Hta & Hbl & Hbrk & Hh & Hr & Hl).
  destruct (get s1') as [d s2]. simpl in *. subst d.
  eexists _, _. split; [reflexivity|].
  unfold allocated_as. simpl. rewrite Hh, Hbl, Hbrk, Hl, Hta, Hr.
  repeat split; done.
Qed.

Lemma create_object_after_desc cfg T B get s :
  VBase_desc cfg T B = Built get →
  ∃ o s' sz,
    (let '(d, s1) := get s in create_object cfg d s1) = Ret o s' ∧
    allocated_as cfg T B (thread_alloc s) sz s o s' ∧ roots s' = roots s.
Proof.
  intros Hget.
  destruct (desc_get_step cfg T B get s Hget)
    as (Ha & [dsc Hsome] & Hstep & Hta & Hbl & Hbrk & Hh & Hr & Hl).
  destruct (get s) as [d s1]. simpl in *. subst d.
  unfold create_object. rewrite Hsome. simpl.
  eexists _, _, (size dsc). split; [reflexivity|].
  unfold allocated_as. simpl. rewrite Hh, Hbl, Hbrk, Hl, Hta, Hr.
  repeat split; done.
Qed.

Lemma V_operator_new_runs cfg T f sz s :
  V_operator_new cfg T = Built f →
  ∃ o s' n, f sz s = Ret o s' ∧
            allocated_as cfg T BObject (thread_alloc s) n s o s' ∧
            roots s' = roots s.
Proof.
  unfold V_operator_new. intros (get & Hget & H)%bind_built.
  inversion H; subst f. by apply create_object_after_desc.
Qed.

Lemma V_operator_new_region_runs cfg T f sz rt s :
  V_operator_new_region cfg T = Built f →
  ∃ o s' n, f sz rt s = Ret o s' ∧
            allocated_as cfg T BObject (thread_alloc s) n s o s' ∧
            roots s' = <[o := rt]> (roots s).
Proof.
  unfold V_operator_new_region. intros (get & Hget & H)%bind_built.
  inversion H; subst f.
  destruct (create_object_after_desc cfg T BObject get s Hget)
    as (o & s1 & n & Hrun & Hal & Hr).
  unfold create_fresh_region.
  destruct (get s) as [d s0]. rewrite Hrun. simpl.
  eexists o, _, n. split; [reflexivity|]. simpl. rewrite Hr. split; [|done].
  destruct Hal as (? & ? & ? & ? & ? & ? & ? & ?). by repeat split.
Qed.

Lemma VCown_operator_new_runs cfg T f sz s :
  VCown_operator_new cfg T = Built f →
  ∃ o s', f sz s = Ret o s' ∧
          allocated_as cfg T BCown (thread_alloc s) (vsizeof cfg T) s o s' ∧
          roots s' = roots s.
Proof.
  unfold VCown_operator_new. intros (get & Hget & H)%bind_built.
  inversion H; subst f. by apply alloc_then_register.
Qed.

Lemma VCown_operator_new_alloc_runs cfg T f sz a s :
  VCown_operator_new_alloc cfg T = Built f →
  ∃ o s', f sz a s = Ret o s' ∧
          allocated_as cfg T BCown a (vsizeof cfg T) s o s' ∧
          roots s' = roots s.
Proof.
  unfold VCown_operator_new_alloc. intros (get & Hget & H)%bind_built.
  inversion H; subst f. by apply alloc_then_register.
Qed.

(** The sized variant: the assertion first, then as the others with the
    requested size. *)
Lemma VCown_operator_new_sized_runs cfg T f base_size req_size s :
  VCown_operator_new_sized cfg T = Built f →
  (NDEBUG cfg = false ∧ req_size < base_size ∧ f base_size req_size s = Aborted) ∨
  ((NDEBUG cfg = true ∨ base_size ≤ req_size) ∧
   ∃ o s', f base_size req_size s = Ret o s' ∧
           allocated_as cfg T BCown (thread_alloc s) req_size s o s' ∧
           roots s' = roots s).
Proof.
  unfold VCown_operator_new_sized. intros (get & Hget & H)%bind_built.
  inversion H; subst f. unfold assert.
  destruct (NDEBUG cfg) eqn:En.
  - right. split; [by left|]. by apply alloc_then_register.
  - case_bool_decide.
    + right. split; [by right|]. by apply alloc_then_register.
    + left. repeat split. lia.
Qed.

(** ** What the wrappers add to the log *)

Lemma destructions_enter_member T name o args l :
  destructions (enter T (Member name) o args l) = destructions l.
Proof.
  unfold destructions, enter. rewrite list.filter_app, length_app. simpl. lia.
Qed.

Lemma destructions_enter_destructor T o args l :
  destructions (enter T Destructor o args l) = S (destructions l).
Proof.
  unfold destructions, enter. rewrite list.filter_app, length_app. simpl. lia.
Qed.

Lemma gc_trace_no_destruction T tr o st l :
  gc_trace T = Built tr → destructions (tr o st l).2 = destructions l.
Proof.
  unfold gc_trace. destruct (declared "trace" T) as [|m0 ms].
  - destruct (inherited "trace" T); [|done]. intros H. by inversion H.
  - intros (m & _ & H)%bind_built. inversion H. simpl.
    apply destructions_enter_member.
Qed.

Lemma gc_final_no_destruction T fi o region sub_regions l :
  gc_final T = Built fi →
  destructions (fi o region sub_regions l).2 = destructions l.
Proof.
  intros H%gc_final_built. destruct (has_finaliser T).
  - destruct H as (m & _ & _ & ->). simpl. apply destructions_enter_member.
  - by subst fi.
Qed.

Lemma gc_notified_no_destruction T no o l :
  gc_notified T = Built no → destructions (no o l) = destructions l.
Proof.
  intros ->%gc_notified_built. destruct (has_notified T); [|done].
  apply destructions_enter_member.
Qed.

(** ** One operation of the layer *)

Definition is_delete (op : Op) : bool :=
  match op with
  | CallDelete _ | CallDeleteSize _ _ | CallDeleteAlloc _ _
  | CallDeleteObject _ _ | CallDeleteAllocObject _ _ _ | CallDeleteRegion _ _ => true
  | _ => false
  end.

Definition is_destructor_call (op : Op) : bool :=
  match op with CallDestructorFn _ _ => true | _ => false end.

Lemma discard_ret {A} (m : outcome A) s' :
  discard m = Ret () s' → ∃ a, m = Ret a s'.
Proof. destruct m; simpl; [|done..]. intros [= ->]. eauto. Qed.

Lemma through_ret {F} (field : Descriptor → option F) d run s s' :
  through field d run s = Ret () s' →
  ∃ dsc f, statics s !! d = Some dsc ∧ field dsc = Some f ∧
           s' = set_log (run f) s.
Proof.
  unfold through. destruct (statics s !! d) as [dsc|] eqn:Ed; [|done].
  destruct (field dsc) as [f|] eqn:Ef; [|done]. intros [= <-].
  by exists dsc, f.
Qed.

Lemma exec_statics_step cfg op f s s' :
  exec cfg op = Built f → f s = Ret () s' → statics_step cfg s s'.
Proof.
  destruct op; simpl.
  - intros (get & Hget & H)%bind_built. inversion H; subst f. intros [= <-].
    apply (desc_get_step cfg T B get s Hget).
  - intros (g & Hg & H)%bind_built. inversion H; subst f.
    intros [o Ho]%discard_ret.
    destruct (V_operator_new_runs cfg T g sz s Hg) as (o' & s1 & n & Hr & Hal & _).
    rewrite Hr in Ho. inversion Ho; subst. apply Hal.
  - intros (g & Hg & H)%bind_built. inversion H; subst f.
    intros [o Ho]%discard_ret.
    destruct (V_operator_new_region_runs cfg T g sz rt s Hg)
      as (o' & s1 & n & Hr & Hal & _).
    rewrite Hr in Ho. inversion Ho; subst. apply Hal.
  - intros (g & Hg & H)%bind_built. inversion H; subst f.
    intros [o Ho]%discard_ret.
    destruct (VCown_operator_new_runs cfg T g sz s Hg) as (o' & s1 & Hr & Hal & _).
    rewrite Hr in Ho. inversion Ho; subst. apply Hal.
  - intros (g & Hg & H)%bind_built. inversion H; subst f.
    intros [o Ho]%discard_ret.
    destruct (VCown_operator_new_alloc_runs cfg T g sz a s Hg)
      as (o' & s1 & Hr & Hal & _).
    rewrite Hr in Ho. inversion Ho; subst. apply Hal.
  - intros (g & Hg & H)%bind_built. inversion H; subst f.
    intros [o Ho]%discard_ret.
    destruct (VCown_operator_new_sized_runs cfg T g base_size req_size s Hg)
      as [(_ & _ & Hab)|(_ & o' & s1 & Hr & Hal & _)].
    + by rewrite Hab in Ho.
    + rewrite Hr in Ho. inversion Ho; subst. apply Hal.
  - intros [= <-] [= <-]. by left.
  - intros [= <-] [= <-]. by left.
  - intros [= <-] [= <-]. by left.
  - intros [= <-] [= <-]. by left.
  - intros [= <-] [= <-]. by left.
  - intros [= <-] [= <-]. by left.
  - intros [= <-] (? & ? & _ & _ & ->)%through_ret. by left.
  - intros [= <-] (? & ? & _ & _ & ->)%through_ret. by left.
  - intros [= <-] (? & ? & _ & _ & ->)%through_ret. by left.
  - intros [= <-] (? & ? & _ & _ & ->)%through_ret. by left.
Qed.

(** The log after one operation: untouched by [desc()], by allocation and
    by [operator delete]; a call through the descriptor adds an entry into
    a destructor only when it goes through the destructor pointer. *)
Lemma exec_destructions cfg op f s s' :
  statics_built cfg s →
  exec cfg op = Built f → f s = Ret () s' →
  destructions (log s') =
    if is_destructor_call op then S (destructions (log s))
    else destructions (log s).
Proof.
  intros Hb. destruct op; simpl.
  - intros (get & Hget & H)%bind_built. inversion H; subst f. intros [= <-].
    f_equal. apply (desc_get_step cfg T B get s Hget).
  - intros (g & Hg & H)%bind_built. inversion H; subst f.
    intros [o Ho]%discard_ret.
    destruct (V_operator_new_runs cfg T g sz s Hg) as (o' & s1 & n & Hr & Hal & _).
    rewrite Hr in Ho. inversion Ho; subst. f_equal. apply Hal.
  - intros (g & Hg & H)%bind_built. inversion H; subst f.
    intros [o Ho]%discard_ret.
    destruct (V_operator_new_region_runs cfg T g sz rt s Hg)
      as (o' & s1 & n & Hr & Hal & _).
    rewrite Hr in Ho. inversion Ho; subst. f_equal. apply Hal.
  - intros (g & Hg & H)%bind_built. inversion H; subst f.
    intros [o Ho]%discard_ret.
    destruct (VCown_operator_new_runs cfg T g sz s Hg) as (o' & s1 & Hr & Hal & _).
    rewrite Hr in Ho. inversion Ho; subst. f_equal. apply Hal.
  - intros (g & Hg & H)%bind_built. inversion H; subst f.
    intros [o Ho]%discard_ret.
    destruct (VCown_operator_new_alloc_runs cfg T g sz a s Hg)
      as (o' & s1 & Hr & Hal & _).
    rewrite Hr in Ho. inversion Ho; subst. f_equal. apply Hal.
  - intros (g & Hg & H)%bind_built. inversion H; subst f.
    intros [o Ho]%discard_ret.
    destruct (VCown_operator_new_sized_runs cfg T g base_size req_size s Hg)
      as [(_ & _ & Hab)|(_ & o' & s1 & Hr & Hal & _)].
    + by rewrite Hab in Ho.
    + rewrite Hr in Ho. inversion Ho; subst. f_equal. apply Hal.
  - by intros [= <-] [= <-].
  - by intros [= <-] [= <-].
  - by intros [= <-] [= <-].
  - by intros [= <-] [= <-].
  - by intros [= <-] [= <-].
  - by intros [= <-] [= <-].
  - intros [= <-] (dsc & tr & Hd & Hf & ->)%through_ret. simpl.
    destruct (Hb _ _ Hd) as [T HT].
    apply desc_init_built in HT as (? & ? & ? & ? & Htr & _ & _ & _ & ->).
    simpl in Hf. inversion Hf; subst. by eapply gc_trace_no_destruction.
  - intros [= <-] (dsc & fi & Hd & Hf & ->)%through_ret. simpl.
    destruct (Hb _ _ Hd) as [T HT].
    apply desc_init_built in HT as (? & fi' & ? & ? & _ & Hfi & _ & _ & ->).
    simpl in Hf. destruct (has_finaliser T); [|done].
    inversion Hf; subst. by eapply gc_final_no_destruction.
  - intros [= <-] (dsc & no & Hd & Hf & ->)%through_ret. simpl.
    destruct (Hb _ _ Hd) as [T HT].
    apply desc_init_built in HT as (? & ? & no' & ? & _ & _ & Hno & _ & ->).
    simpl in Hf. destruct (has_notified T); [|done].
    inversion Hf; subst. by eapply gc_notified_no_destruction.
  - intros [= <-] (dsc & de & Hd & Hf & ->)%through_ret. simpl.
    destruct (Hb _ _ Hd) as [T HT].
    apply desc_init_built in HT as (? & ? & ? & de' & _ & _ & _ & Hde & ->).
    simpl in Hf. destruct (has_destructor T); [|done].
    inversion Hf; subst. apply gc_destructor_built in Hde. subst.
    apply destructions_enter_destructor.
Qed.

Lemma steps_statics_keep cfg s ops s' a d :
  steps cfg s ops s' → statics s !! a = Some d → statics s' !! a = Some d.
Proof.
  induction 1 as [|s op f s1 ops s2 Hex Hrun _ IH]; [done|].
  intros Ha. apply IH.
  eapply statics_step_keeps; [by eapply exec_statics_step|done].
Qed.

Lemma steps_statics_built cfg s ops s' :
  steps cfg s ops s' → statics_built cfg s → statics_built cfg s'.
Proof.
  induction 1 as [|s op f s1 ops s2 Hex Hrun _ IH]; [done|].
  intros Hb. apply IH.
  eapply statics_step_built; [by eapply exec_statics_step|done].
Qed.

(** ** Claims about the static descriptor *)

(** The function [desc()] of an instantiation that builds. *)
Definition built_or {A} (m : build A) (dflt : A) : A :=
  match m with Built a => a | IllFormed _ => dflt end.

Definition Leaf_desc : State → StaticAddr * State :=
  built_or (VBase_desc debug64 Leaf BObject) (λ s, (desc_addr Leaf BObject, s)).

(** C1: every call of [desc()] of one instantiation returns the same
    address, the address of a descriptor that exists from the first call
    on and, when that call initialised it, is the one the initialiser
    built; whatever operations of the layer run afterwards, the descriptor
    stored there is the same, and a later call returns the same address and
    changes nothing.  Different classes and different bases have different
    addresses. *)
Theorem desc_same_instance_immutable cfg T B get :
  VBase_desc cfg T B = Built get →
  ∀ s,
    (get s).1 = desc_addr T B ∧
    (∀ T' B', desc_addr T' B' = desc_addr T B ↔ cname T' = cname T ∧ B' = B) ∧
    ∃ d, statics (get s).2 !! desc_addr T B = Some d ∧
         (statics s !! desc_addr T B = None → desc_init cfg T = Built d) ∧
         ∀ ops s', steps cfg (get s).2 ops s' →
           (get s').1 = (get s).1 ∧
           statics s' !! desc_addr T B = Some d ∧
           (get s').2 = s'.
Proof.
  intros Hget s.
  destruct (desc_get_step cfg T B get s Hget) as (Ha & [d Hd] & _).
  split; [done|]. split.
  { intros T' B'. unfold desc_addr. split; [by intros [= -> ->]|by intros [-> ->]]. }
  exists d. split; [done|]. split.
  - apply VBase_desc_built in Hget as (d' & Hd' & ->). intros Hnone.
    rewrite Hnone in Hd. simpl in Hd. rewrite lookup_insert_eq in Hd. congruence.
  - intros ops s' Hsteps.
    pose proof (steps_statics_keep _ _ _ _ _ _ Hsteps Hd) as Hd'.
    destruct (desc_get_step cfg T B get s' Hget) as (Ha' & _).
    split; [congruence|]. split; [done|].
    apply VBase_desc_built in Hget as (d0 & _ & ->). by rewrite Hd'.
Qed.

Lemma desc_same_instance_immutable_witness :
  (Leaf_desc init_state).1 = desc_addr Leaf BObject ∧
  (∀ T' B', desc_addr T' B' = desc_addr Leaf BObject
            ↔ cname T' = cname Leaf ∧ B' = BObject) ∧
  ∃ d, statics (Leaf_desc init_state).2 !! desc_addr Leaf BObject = Some d ∧
       (statics init_state !! desc_addr Leaf BObject = None →
        desc_init debug64 Leaf = Built d) ∧
       ∀ ops s', steps debug64 (Leaf_desc init_state).2 ops s' →
         (Leaf_desc s').1 = (Leaf_desc init_state).1 ∧
         statics s' !! desc_addr Leaf BObject = Some d ∧
         (Leaf_desc s').2 = s'.
Proof.
  apply (desc_same_instance_immutable debug64 Leaf BObject Leaf_desc).
  reflexivity.
Defined.

(** ** Claims about allocation *)

(** The object at [o] carries the descriptor of [VBase<T, B>], the one
    [desc()] returns. *)
Definition registered (cfg : BuildConfig) (T : ClassDecl) (B : BaseKind)
    (o : Ptr) (s : State) : Prop :=
  headers s !! o = Some (desc_addr T B) ∧
  is_Some (statics s !! desc_addr T B) ∧
  ∃ get, VBase_desc cfg T B = Built get ∧ get s = (desc_addr T B, s).

Lemma allocated_registered cfg T B a sz s o s' d :
  desc_init cfg T = Built d →
  allocated_as cfg T B a sz s o s' → registered cfg T B o s'.
Proof.
  intros Hd (-> & Hh & _ & _ & _ & [d' Hs] & _).
  split; [by rewrite Hh, lookup_insert_eq|]. split; [by exists d'|].
  eexists. split; [by apply VBase_desc_of_init|]. simpl. by rewrite Hs.
Qed.

(** C7: for a class whose descriptor builds, each of the five allocation
    functions is well-formed, returns, and returns an object whose header
    is registered with the descriptor [desc()] of the same instantiation
    returns; the function taking a region type also makes the object the
    root of a region of that type.  (The sized variant returns when its
    assertion lets it.) *)
Theorem allocation_registers_descriptor cfg T d :
  desc_init cfg T = Built d →
  (∃ f, V_operator_new cfg T = Built f ∧
        ∀ sz s, ∃ o s', f sz s = Ret o s' ∧ registered cfg T BObject o s') ∧
  (∃ f, V_operator_new_region cfg T = Built f ∧
        ∀ sz rt s, ∃ o s', f sz rt s = Ret o s' ∧
                           registered cfg T BObject o s' ∧
                           roots s' !! o = Some rt) ∧
  (∃ f, VCown_operator_new cfg T = Built f ∧
        ∀ sz s, ∃ o s', f sz s = Ret o s' ∧ registered cfg T BCown o s') ∧
  (∃ f, VCown_operator_new_alloc cfg T = Built f ∧
        ∀ sz a s, ∃ o s', f sz a s = Ret o s' ∧ registered cfg T BCown o s') ∧
  (∃ f, VCown_operator_new_sized cfg T = Built f ∧
        ∀ base_size req_size s,
          NDEBUG cfg = true ∨ base_size ≤ req_size →
          ∃ o s', f base_size req_size s = Ret o s' ∧
                  registered cfg T BCown o s').
Proof.
  intros Hd.
  pose proof (VBase_desc_of_init cfg T BObject d Hd) as HO.
  pose proof (VBase_desc_of_init cfg T BCown d Hd) as HC.
  repeat split.
  - assert (∃ f, V_operator_new cfg T = Built f) as [f Hf]
      by (unfold V_operator_new; rewrite HO; by eexists).
    exists f. split; [done|]. intros sz s.
    destruct (V_operator_new_runs cfg T f sz s Hf) as (o & s' & n & Hr & Hal & _).
    exists o, s'. split; [exact Hr|]. by eapply allocated_registered.
  - assert (∃ f, V_operator_new_region cfg T = Built f) as [f Hf]
      by (unfold V_operator_new_region; rewrite HO; by eexists).
    exists f. split; [done|]. intros sz rt s.
    destruct (V_operator_new_region_runs cfg T f sz rt s Hf)
      as (o & s' & n & Hr & Hal & Hroots).
    exists o, s'. split; [exact Hr|]. split; [by eapply allocated_registered|].
    by rewrite Hroots, lookup_insert_eq.
  - assert (∃ f, VCown_operator_new cfg T = Built f) as [f Hf]
      by (unfold VCown_operator_new; rewrite HC; by eexists).
    exists f. split; [done|]. intros sz s.
    destruct (VCown_operator_new_runs cfg T f sz s Hf) as (o & s' & Hr & Hal & _).
    exists o, s'. split; [exact Hr|]. by eapply allocated_registered.
  - assert (∃ f, VCown_operator_new_alloc cfg T = Built f) as [f Hf]
      by (unfold VCown_operator_new_alloc; rewrite HC; by eexists).
    exists f. split; [done|]. intros sz a s.
    destruct (VCown_operator_new_alloc_runs cfg T f sz a s Hf)
      as (o & s' & Hr & Hal & _).
    exists o, s'. split; [exact Hr|]. by eapply allocated_registered.
  - assert (∃ f, VCown_operator_new_sized cfg T = Built f) as [f Hf]
      by (unfold VCown_operator_new_sized; rewrite HC; by eexists).
    exists f. split; [done|]. intros base_size req_size s Hok.
    destruct (VCown_operator_new_sized_runs cfg T f base_size req_size s Hf)
      as [(Hn & Hlt & _)|(_ & o & s' & Hr & Hal & _)].
    + destruct Hok; [congruence|lia].
    + exists o, s'. split; [exact Hr|]. by eapply allocated_registered.
Qed.

Lemma allocation_registers_descriptor_witness :
  (∃ f, V_operator_new debug64 Leaf = Built f ∧
        ∀ sz s, ∃ o s', f sz s = Ret o s' ∧ registered debug64 Leaf BObject o s') ∧
  (∃ f, V_operator_new_region debug64 Leaf = Built f ∧
        ∀ sz rt s, ∃ o s', f sz rt s = Ret o s' ∧
                           registered debug64 Leaf BObject o s' ∧
                           roots s' !! o = Some rt) ∧
  (∃ f, VCown_operator_new debug64 Leaf = Built f ∧
        ∀ sz s, ∃ o s', f sz s = Ret o s' ∧ registered debug64 Leaf BCown o s') ∧
  (∃ f, VCown_operator_new_alloc debug64 Leaf = Built f ∧
        ∀ sz a s, ∃ o s', f sz a s = Ret o s' ∧ registered debug64 Leaf BCown o s') ∧
  (∃ f, VCown_operator_new_sized debug64 Leaf = Built f ∧
        ∀ base_size req_size s,
          NDEBUG debug64 = true ∨ base_size ≤ req_size →
          ∃ o s', f base_size req_size s = Ret o s' ∧
                  registered debug64 Leaf BCown o s').
Proof.
  apply (allocation_registers_descriptor debug64 Leaf Leaf_descriptor).
  reflexivity.
Defined.

Example Leaf_fresh_region :
  ∃ f s', V_operator_new_region debug64 Leaf = Built f ∧
          f 24 1 init_state = Ret 4112 s' ∧
          headers s' !! 4112 = Some ("Leaf", BObject) ∧
          roots s' !! 4112 = Some 1 ∧
          blocks s' = [{| blk_alloc := 0; blk_base := 4096; blk_size := 40 |}].
Proof. eexists _, _. repeat split. Qed.

(** The sized allocation function of [VCown<Leaf>] in a debug build. *)
Definition Leaf_new_sized : N → N → State → outcome Ptr :=
  built_or (VCown_operator_new_sized debug64 Leaf) (λ _ _ _, Undefined).

(** What the sized allocation function does for the requests its
    assertion is written for.  Called as a new-expression calls it, with
    [base_size = sizeof(T)]: a request of at least the footprint
    [vsizeof<T>] passes the assertion and is served with a block of exactly
    the requested size from the thread's allocator, in which the header
    and, behind it at the returned address, the [sizeof(T)] bytes of the
    object lie, registered with the descriptor; when assertions are
    compiled in, a request below [sizeof(T)] aborts; when they are compiled
    out, every request is served. *)
Theorem sized_new_checks_base_size cfg T f req_size s :
  VCown_operator_new_sized cfg T = Built f →
  (vsizeof cfg T ≤ req_size →
   ∃ o s', f (csizeof T) req_size s = Ret o s' ∧
           o = brk s + header_size cfg ∧
           {| blk_alloc := thread_alloc s; blk_base := brk s;
              blk_size := req_size |} ∈ blocks s' ∧
           o + csizeof T ≤ brk s + req_size ∧
           registered cfg T BCown o s') ∧
  (NDEBUG cfg = false → req_size < csizeof T →
   f (csizeof T) req_size s = Aborted) ∧
  (NDEBUG cfg = true → ∃ o s', f (csizeof T) req_size s = Ret o s').
Proof.
  intros Hf.
  assert (∃ d, desc_init cfg T = Built d) as [d Hd].
  { unfold VCown_operator_new_sized in Hf.
    apply bind_built in Hf as (get & Hget & _).
    apply VBase_desc_built in Hget as (d & Hd & _). by exists d. }
  destruct (VCown_operator_new_sized_runs cfg T f (csizeof T) req_size s Hf)
    as [(Hn & Hlt & Hab)|(Hok & o & s' & Hr & Hal & _)].
  - split; [|split].
    + unfold vsizeof. intros Hge. lia.
    + done.
    + congruence.
  - split; [|split].
    + intros Hge. exists o, s'. split; [done|].
      pose proof (allocated_registered _ _ _ _ _ _ _ _ _ Hd Hal) as Hreg.
      destruct Hal as (-> & _ & Hbl & _). split; [done|].
      split; [rewrite Hbl; left|]. split; [|done].
      unfold vsizeof in Hge. lia.
    + intros Hn Hlt. destruct Hok; [congruence|lia].
    + intros _. by exists o, s'.
Qed.

Lemma sized_new_checks_base_size_witness :
  (vsizeof debug64 Leaf ≤ 64 →
   ∃ o s', Leaf_new_sized (csizeof Leaf) 64 init_state = Ret o s' ∧
           o = brk init_state + header_size debug64 ∧
           {| blk_alloc := thread_alloc init_state; blk_base := brk init_state;
              blk_size := 64 |} ∈ blocks s' ∧
           o + csizeof Leaf ≤ brk init_state + 64 ∧
           registered debug64 Leaf BCown o s') ∧
  (NDEBUG debug64 = false → 64 < csizeof Leaf →
   Leaf_new_sized (csizeof Leaf) 64 init_state = Aborted) ∧
  (NDEBUG debug64 = true →
   ∃ o s', Leaf_new_sized (csizeof Leaf) 64 init_state = Ret o s').
Proof.
  apply (sized_new_checks_base_size debug64 Leaf Leaf_new_sized 64 init_state).
  reflexivity.
Defined.

(** C5, at a request between [sizeof(T)] and the footprint: in a debug
    build a request of 30 bytes for [Leaf], whose footprint is 40 bytes,
    passes the assertion (30 is not below [sizeof(Leaf)] = 24), although
    the comment above the function asks for storage for the header and the
    object; the function returns an object registered with the descriptor,
    and the 24 bytes of the object end 10 bytes behind the 30-byte
    block. *)
Theorem sized_new_serves_request_below_footprint :
  ∃ f o s',
    VCown_operator_new_sized debug64 Leaf = Built f ∧
    NDEBUG debug64 = false ∧
    30 < vsizeof debug64 Leaf ∧
    f (csizeof Leaf) 30 init_state = Ret o s' ∧
    blocks s' = [{| blk_alloc := 0; blk_base := 4096; blk_size := 30 |}] ∧
    headers s' !! o = Some (desc_addr Leaf BCown) ∧
    4096 + 30 < o + csizeof Leaf.
Proof. eexists _, _, _. repeat split. Qed.

(** With assertions compiled out, a request below [sizeof(Leaf)] itself is
    served as well. *)
Example sized_new_release_build :
  ∃ f o s',
    VCown_operator_new_sized release64 Leaf = Built f ∧
    f (csizeof Leaf) 8 init_state = Ret o s' ∧
    blocks s' = [{| blk_alloc := 0; blk_base := 4096; blk_size := 8 |}].
Proof. eexists _, _, _. repeat split. Qed.

Example sized_new_debug_build_aborts :
  Leaf_new_sized (csizeof Leaf) 8 init_state = Aborted.
Proof. reflexivity. Qed.

(** ** Claims about deallocation *)

Lemma operator_delete_bodies p sz a o rt s :
  VBase_operator_delete p s = s ∧
  VBase_operator_delete_size p sz s = s ∧
  VBase_operator_delete_alloc p a s = s ∧
  VBase_operator_delete_object p o s = s ∧
  VBase_operator_delete_alloc_object p a o s = s ∧
  VBase_operator_delete_region p rt s = s.
Proof. by repeat split. Qed.

(** [delete p] in user code, for [p] of type [C*] with [C] derived from
    an adapter: nothing for a null pointer; otherwise the object's
    destructor is called and then the deallocation function the expression
    selects, which is [VBase::operator delete(void* )]. *)
Definition run_delete_expression (T : ClassDecl) (B : BaseKind) (p : Ptr)
    : build (State → State) :=
  _ ← delete_expression B false;
  if cdestructor_usable T
  then Built (λ s, if decide (p = 0) then s
                   else VBase_operator_delete p
                          (set_log (enter T Destructor p []) s))
  else IllFormed (UnusableDestructor (cname T)).

(** The state after [new Resource] on a cown, the first allocation of a
    program; the object is at 4112. *)
Definition after_Resource_new : State :=
  default init_state
    (final_state (built_or (exec debug64 (CallCownNew Resource 48))
                           (λ _, Undefined) init_state)).

(** C8, as amended: each of the six [operator delete] overloads returns
    on every state and leaves the whole state as it was: no block is
    released, no header, region or static is touched, no member of the
    class is entered.  Among the operations of the layer, an entry into a
    class's destructor is made by a call through a descriptor's destructor
    pointer, once per call, and by nothing else.  A delete-expression in
    user code is not an operation of the layer: it is well-formed whenever
    the destructor can be called, and on a non-null pointer it enters the
    destructor once and then reaches the empty [operator delete], so that
    blocks, headers, regions and statics stay as they were. *)
Theorem operator_delete_no_op cfg op f s s' T B p run :
  statics_built cfg s →
  exec cfg op = Built f →
  f s = Ret () s' →
  run_delete_expression T B p = Built run →
  p ≠ 0 →
  (is_delete op = true → s' = s ∧ ∀ s0, f s0 = Ret () s0) ∧
  destructions (log s') =
    (if is_destructor_call op then S (destructions (log s))
     else destructions (log s)) ∧
  (log (run s) = (log s ++ [{| call_class := cname T; call_callee := Destructor;
                               call_this := p; call_args := [] |}])%list ∧
   blocks (run s) = blocks s ∧ headers (run s) = headers s ∧
   roots (run s) = roots s ∧ statics (run s) = statics s ∧ brk (run s) = brk s).
Proof.
  intros Hb Hex Hrun Hdel Hp. split; [|split].
  - intros Hd. destruct op; try done; simpl in Hex;
      inversion Hex; subst f; inversion Hrun; by subst.
  - apply (exec_destructions cfg op f s s' Hb Hex Hrun).
  - unfold run_delete_expression in Hdel.
    apply bind_built in Hdel as (d & _ & Hdel).
    destruct (cdestructor_usable T); [|done]. inversion Hdel; subst run.
    by rewrite decide_False.
Qed.

Lemma operator_delete_no_op_witness :
  (is_delete (CallDelete 4112) = true →
   after_Resource_new = after_Resource_new ∧
   ∀ s0, (λ s, Ret () (VBase_operator_delete 4112 s)) s0 = Ret () s0) ∧
  destructions (log after_Resource_new) =
    (if is_destructor_call (CallDelete 4112)
     then S (destructions (log after_Resource_new))
     else destructions (log after_Resource_new)) ∧
  (log (built_or (run_delete_expression Resource BCown 4112) (λ s, s)
                 after_Resource_new) =
     (log after_Resource_new
      ++ [{| call_class := cname Resource; call_callee := Destructor;
             call_this := 4112; call_args := [] |}])%list ∧
   blocks (built_or (run_delete_expression Resource BCown 4112) (λ s, s)
                    after_Resource_new) = blocks after_Resource_new ∧
   headers (built_or (run_delete_expression Resource BCown 4112) (λ s, s)
                     after_Resource_new) = headers after_Resource_new ∧
   roots (built_or (run_delete_expression Resource BCown 4112) (λ s, s)
                   after_Resource_new) = roots after_Resource_new ∧
   statics (built_or (run_delete_expression Resource BCown 4112) (λ s, s)
                     after_Resource_new) = statics after_Resource_new ∧
   brk (built_or (run_delete_expression Resource BCown 4112) (λ s, s)
                 after_Resource_new) = brk after_Resource_new).
Proof.
  apply (operator_delete_no_op debug64 (CallDelete 4112)
           (λ s, Ret () (VBase_operator_delete 4112 s))
           after_Resource_new after_Resource_new Resource BCown 4112
           (built_or (run_delete_expression Resource BCown 4112) (λ s, s))).
  - apply (steps_statics_built debug64 init_state [CallCownNew Resource 48]).
    + eapply steps_cons; [reflexivity|reflexivity|apply steps_nil].
    + intros a d H. vm_compute in H. discriminate H.
  - reflexivity.
  - reflexivity.
  - reflexivity.
  - discriminate.
Defined.

(** C8, as stated, fails: after [new Resource] has returned the object at
    4112, registered with the descriptor of [VCown<Resource>], the
    expression [delete p] on it is well-formed and enters
    [Resource]'s destructor, without any call through the descriptor's
    destructor pointer; the block stays allocated and the header stays
    registered. *)
Lemma delete_expression_runs_destructor :
  ∃ run,
    run_delete_expression Resource BCown 4112 = Built run ∧
    headers after_Resource_new !! 4112 = Some (desc_addr Resource BCown) ∧
    is_Some (destructor Resource_descriptor) ∧
    statics after_Resource_new !! desc_addr Resource BCown
      = Some Resource_descriptor ∧
    log after_Resource_new = [] ∧
    log (run after_Resource_new) =
      [{| call_class := "Resource"; call_callee := Destructor;
          call_this := 4112; call_args := [] |}] ∧
    blocks (run after_Resource_new) = blocks after_Resource_new ∧
    headers (run after_Resource_new) = headers after_Resource_new.
Proof. eexists. repeat split. by eexists. Qed.

(** A descriptor's destructor pointer does enter the destructor. *)
Example Resource_destroyed :
  ∃ get f s2,
    VBase_desc debug64 Resource BCown = Built get ∧
    exec debug64 (CallDestructorFn (desc_addr Resource BCown) 4112) = Built f ∧
    f (get init_state).2 = Ret () s2 ∧
    log s2 = [{| call_class := "Resource"; call_callee := Destructor;
                 call_this := 4112; call_args := [] |}].
Proof. eexists _, _, _. repeat split. Qed.

(** ** Claims about arrays *)

(** C10: in both adapters the name [operator new[]] finds the single
    deleted declaration of [VBase] and [operator delete[]] its two deleted
    declarations, so that an array new-expression, with or without
    placement arguments, and an array delete-expression are ill-formed. *)
Theorem array_forms_deleted B placement :
  lookup_operator B OpNewArray =
    [{| op_name := OpNewArray; op_params := [PSize]; op_deleted := true |}] ∧
  Forall (λ d, op_deleted d = true) (lookup_operator B OpDeleteArray) ∧
  lookup_operator B OpDeleteArray ≠ [] ∧
  new_expression B true [] = IllFormed (UseOfDeletedFunction "operator new[]") ∧
  is_built (new_expression B true placement) = false ∧
  delete_expression B true = IllFormed (UseOfDeletedFunction "operator delete[]").
Proof.
  assert (∀ B', lookup_operator B' OpNewArray =
            [{| op_name := OpNewArray; op_params := [PSize]; op_deleted := true |}])
    as Hnew by (by intros []).
  split; [apply Hnew|].
  split; [destruct B; vm_compute; by repeat constructor|].
  split; [by destruct B|].
  split; [by destruct B|].
  split; [|by destruct B].
  unfold new_expression, select_operator. rewrite Hnew.
  destruct placement as [|p ps]; [done|].
  rewrite filter_cons, decide_False by (simpl; by intros [=]). done.
Qed.

(** The non-array forms the header provides are well-formed. *)
Example scalar_forms_selected :
  is_built (new_expression BObject false []) = true ∧
  is_built (new_expression BObject false [PRegionType]) = true ∧
  is_built (new_expression BCown false []) = true ∧
  is_built (new_expression BCown false [PAllocRef]) = true ∧
  is_built (new_expression BCown false [PSize]) = true ∧
  is_built (delete_expression BObject false) = true ∧
  is_built (delete_expression BCown false) = true.
Proof. by repeat split. Qed.

(** * Further properties of the header *)

(** ** More example classes *)

Definition Node_descriptor : Descriptor :=
  built_or (desc_init debug64 Node) Leaf_descriptor.

Example Node_desc_init : desc_init debug64 Node = Built Node_descriptor.
Proof. reflexivity. Qed.

(** [void trace(int);]: a [trace] that cannot take an [ObjectStack&]. *)
Definition BadTrace : ClassDecl :=
  {| cname := "BadTrace"; csizeof := 16;
     cmembers := [ {| mname := "trace"; mparams := [TInt];
                      mpublic := true; mbody := no_stack_effect |} ];
     cinherited := [];
     ctrivially_destructible := true; cdestructor_usable := true |}.

(** ** Helper facts *)

Lemma has_member_overloaded name T :
  (2 ≤ length (declared name T))%nat → has_member name T = false.
Proof.
  intros Hlen. destruct (has_member name T) eqn:E; [|done].
  apply has_member_unique in E as (m & Hm & _).
  rewrite lookup_declared in Hm by (intros Hn; rewrite Hn in Hlen; simpl in Hlen; lia).
  rewrite Hm in Hlen. simpl in Hlen. lia.
Qed.

(** When lookup finds at most one member, and only public ones, the probe
    says whether it finds any. *)
Lemma has_member_iff_found name T :
  (length (lookup name T) ≤ 1)%nat →
  Forall (λ m, mpublic m = true) (lookup name T) →
  has_member name T = true ↔ lookup name T ≠ [].
Proof.
  intros Hlen Hpub. rewrite has_member_unique.
  destruct (lookup name T) as [|m [|m' l]]; simpl in *.
  - split; [by intros (? & ? & ?)|done].
  - split; [done|]. intros _. exists m. split; [done|]. by inversion Hpub.
  - lia.
Qed.

Lemma resolve_none_viable cls name cands args :
  Forall (λ m, viable args m = false) cands →
  resolve cls name cands args = IllFormed (NoMatchingFunction cls name).
Proof.
  intros Hall. unfold resolve.
  assert (filter (λ m, viable args m = true) cands = []) as ->; [|done].
  induction Hall as [|m l Hm _ IH]; [done|].
  rewrite filter_cons, decide_False by congruence. done.
Qed.

Lemma gc_notified_is_built T :
  is_built (gc_notified T) = true ↔
  ∀ m, lookup "notified" T = [m] → mpublic m = true →
       viable [AObjectPtr] m = true.
Proof.
  unfold gc_notified, has_notified.
  destruct (has_member "notified" T) eqn:E.
  - apply has_member_unique in E as (m & Hm & Hp).
    rewrite Hm, call_member_single, Hp.
    destruct (viable [AObjectPtr] m) eqn:Hv; simpl.
    + split; [|done]. by intros _ m' [= <-].
    + split; [done|]. intros H. specialize (H m eq_refl Hp). congruence.
  - split; [|done]. intros _ m Hm Hp.
    assert (has_member "notified" T = true) by (apply has_member_unique; eauto).
    congruence.
Qed.

Lemma gc_final_is_built T :
  is_built (gc_final T) = true ↔
  ∀ m, lookup "finaliser" T = [m] → mpublic m = true →
       viable [AObjectPtr; AObjectStack] m = true.
Proof.
  unfold gc_final, has_finaliser.
  destruct (has_member "finaliser" T) eqn:E.
  - apply has_member_unique in E as (m & Hm & Hp).
    rewrite Hm, call_member_single, Hp.
    destruct (viable _ m) eqn:Hv; simpl.
    + split; [|done]. by intros _ m' [= <-].
    + split; [done|]. intros H. specialize (H m eq_refl Hp). congruence.
  - split; [|done]. intros _ m Hm Hp.
    assert (has_member "finaliser" T = true) by (apply has_member_unique; eauto).
    congruence.
Qed.

Lemma desc_init_is_built cfg T :
  is_built (desc_init cfg T) =
    is_built (gc_trace T) && is_built (gc_final T) && is_built (gc_notified T)
    && cdestructor_usable T.
Proof.
  unfold desc_init, gc_destructor.
  destruct (gc_trace T); [|done]. destruct (gc_final T); [|done].
  destruct (gc_notified T); [|done]. by destruct (cdestructor_usable T).
Qed.

Lemma is_built_true {A} (m : build A) : is_built m = true → ∃ a, m = Built a.
Proof. destruct m; [eauto|done]. Qed.

Lemma bind_is_built {A B} (m : build A) (k : A → build B) :
  (∀ a, is_built (k a) = true) → is_built (m ≫= k) = is_built m.
Proof. intros Hk. destruct m; [apply Hk|done]. Qed.

Lemma VBase_desc_is_built cfg T B :
  is_built (VBase_desc cfg T B) = is_built (desc_init cfg T).
Proof. unfold VBase_desc. by apply bind_is_built. Qed.

Lemma desc_get_initialised cfg T B get s :
  VBase_desc cfg T B = Built get →
  is_Some (statics s !! desc_addr T B) →
  get s = (desc_addr T B, s).
Proof.
  intros (d & _ & ->)%VBase_desc_built [d' Hd']. by rewrite Hd'.
Qed.

(** ** Hooks, by probe and by declaration *)

(** X1: in a descriptor that builds, the finaliser and notified pointers
    are non-null exactly when the probe of that name is true; a non-null
    finaliser pointer, called with [(o, region, sub_regions)], enters the
    single [finaliser] member that lookup finds in the class, on receiver
    [o], with
    [(region, sub_regions)] and leaves the stack as that member leaves it;
    a non-null notified pointer, called with [o], enters [notified] on
    receiver [o] with argument [o]. *)
Theorem hook_pointers_follow_probes cfg T d :
  desc_init cfg T = Built d →
  (is_Some (finaliser d) ↔ has_finaliser T = true) ∧
  (is_Some (notified d) ↔ has_notified T = true) ∧
  (∀ fi, finaliser d = Some fi →
     ∃ m, lookup "finaliser" T = [m] ∧
          ∀ o region sub_regions l,
            fi o region sub_regions l =
              (mbody m o sub_regions,
               (l ++ [{| call_class := cname T;
                         call_callee := Member "finaliser";
                         call_this := o;
                         call_args := [VObj region; VStack sub_regions] |}])%list)) ∧
  (∀ no, notified d = Some no →
     ∀ o l, no o l =
       (l ++ [{| call_class := cname T; call_callee := Member "notified";
                 call_this := o; call_args := [VObj o] |}])%list).
Proof.
  intros (tr & fi & no & de & _ & Hfi & Hno & _ & ->)%desc_init_built. simpl.
  apply gc_notified_built in Hno. apply gc_final_built in Hfi.
  split; [|split; [|split]].
  - destruct (has_finaliser T); split; try done;
      try (by eexists); by intros [? ?].
  - destruct (has_notified T); split; try done;
      try (by eexists); by intros [? ?].
  - destruct (has_finaliser T); [|done]. intros ? [= <-].
    destruct Hfi as (m & Hm & _ & ->). by exists m.
  - destruct (has_notified T); [|done]. intros ? [= <-]. by subst no.
Qed.

Lemma hook_pointers_follow_probes_witness :
  (is_Some (finaliser Node_descriptor) ↔ has_finaliser Node = true) ∧
  (is_Some (notified Node_descriptor) ↔ has_notified Node = true) ∧
  (∀ fi, finaliser Node_descriptor = Some fi →
     ∃ m, lookup "finaliser" Node = [m] ∧
          ∀ o region sub_regions l,
            fi o region sub_regions l =
              (mbody m o sub_regions,
               (l ++ [{| call_class := cname Node;
                         call_callee := Member "finaliser";
                         call_this := o;
                         call_args := [VObj region; VStack sub_regions] |}])%list)) ∧
  (∀ no, notified Node_descriptor = Some no →
     ∀ o l, no o l =
       (l ++ [{| call_class := cname Node; call_callee := Member "notified";
                 call_this := o; call_args := [VObj o] |}])%list).
Proof.
  apply (hook_pointers_follow_probes debug64 Node Node_descriptor).
  reflexivity.
Defined.

(** X2: for a class in which lookup of each hook name finds at most one
    member, and only public ones, the descriptor's pointer for a hook is
    non-null exactly when lookup finds a member of that name, declared by
    the class or inherited. *)
Theorem unambiguous_public_hook_wired_iff_found cfg T d :
  desc_init cfg T = Built d →
  (length (lookup "finaliser" T) ≤ 1)%nat →
  (length (lookup "notified" T) ≤ 1)%nat →
  Forall (λ m, mpublic m = true) (lookup "finaliser" T) →
  Forall (λ m, mpublic m = true) (lookup "notified" T) →
  (is_Some (finaliser d) ↔ lookup "finaliser" T ≠ []) ∧
  (is_Some (notified d) ↔ lookup "notified" T ≠ []).
Proof.
  intros (tr & fi & no & de & _ & _ & _ & _ & ->)%desc_init_built
         Hf Hn Hpf Hpn. simpl.
  rewrite <- (has_member_iff_found "finaliser" T Hf Hpf).
  rewrite <- (has_member_iff_found "notified" T Hn Hpn).
  fold has_finaliser has_notified.
  destruct (has_finaliser T), (has_notified T); repeat split;
    try done; try (by eexists); by intros [? ?].
Qed.

(** [struct HookMixin { void notified(Object* ); };
     struct Inherits : V<Inherits>, HookMixin {};]: the hook is inherited. *)
Definition Inherits : ClassDecl :=
  {| cname := "Inherits"; csizeof := 16; cmembers := [];
     cinherited := [ {| mname := "notified"; mparams := [TObjectPtr];
                        mpublic := true; mbody := no_stack_effect |} ];
     ctrivially_destructible := true; cdestructor_usable := true |}.

Definition Inherits_descriptor : Descriptor :=
  built_or (desc_init debug64 Inherits) Leaf_descriptor.

Lemma unambiguous_public_hook_wired_iff_found_witness :
  (is_Some (finaliser Inherits_descriptor) ↔ lookup "finaliser" Inherits ≠ []) ∧
  (is_Some (notified Inherits_descriptor) ↔ lookup "notified" Inherits ≠ []).
Proof.
  apply (unambiguous_public_hook_wired_iff_found debug64 Inherits
           Inherits_descriptor).
  - reflexivity.
  - vm_compute. lia.
  - vm_compute. lia.
  - vm_compute. constructor.
  - vm_compute. by repeat constructor.
Defined.

(** X3: a hook name declared more than once is never wired: the probe is
    false, the wrapper is instantiated with its empty branch whatever the
    parameter lists of the declarations, and a descriptor that builds
    holds a null pointer for it. *)
Theorem overloaded_hook_ignored T :
  ((2 ≤ length (declared "notified" T))%nat →
   has_notified T = false ∧
   gc_notified T = Built (λ o l, l) ∧
   ∀ cfg d, desc_init cfg T = Built d → notified d = None) ∧
  ((2 ≤ length (declared "finaliser" T))%nat →
   has_finaliser T = false ∧
   gc_final T = Built (λ o region sub_regions l, (sub_regions, l)) ∧
   ∀ cfg d, desc_init cfg T = Built d → finaliser d = None).
Proof.
  split; intros Hlen%has_member_overloaded.
  - split; [done|]. split.
    + unfold gc_notified, has_notified. by rewrite Hlen.
    + intros cfg d (tr & fi & no & de & _ & _ & _ & _ & ->)%desc_init_built.
      simpl. unfold has_notified. by rewrite Hlen.
  - split; [done|]. split.
    + unfold gc_final, has_finaliser. by rewrite Hlen.
    + intros cfg d (tr & fi & no & de & _ & _ & _ & _ & ->)%desc_init_built.
      simpl. unfold has_finaliser. by rewrite Hlen.
Qed.

Lemma overloaded_hook_ignored_witness :
  has_notified Overloaded = false ∧
  gc_notified Overloaded = Built (λ o l, l) ∧
  ∀ cfg d, desc_init cfg Overloaded = Built d → notified d = None.
Proof.
  apply (proj1 (overloaded_hook_ignored Overloaded)).
  vm_compute. lia.
Defined.

(** X5: when lookup of a hook name finds a single member, that member
    is public, and it cannot be called with the wrapper's arguments,
    [desc()] is ill-formed, and with it every allocation function of both
    adapters. *)
Theorem misshapen_public_hook_rejected cfg T m :
  (lookup "notified" T = [m] ∧ mpublic m = true ∧
   viable [AObjectPtr] m = false) ∨
  (lookup "finaliser" T = [m] ∧ mpublic m = true ∧
   viable [AObjectPtr; AObjectStack] m = false) →
  is_built (desc_init cfg T) = false ∧
  is_built (V_operator_new cfg T) = false ∧
  is_built (V_operator_new_region cfg T) = false ∧
  is_built (VCown_operator_new cfg T) = false ∧
  is_built (VCown_operator_new_alloc cfg T) = false ∧
  is_built (VCown_operator_new_sized cfg T) = false.
Proof.
  intros H.
  assert (is_built (desc_init cfg T) = false) as Hd.
  { rewrite desc_init_is_built.
    destruct H as [(Hm & Hp & Hv)|(Hm & Hp & Hv)].
    - assert (is_built (gc_notified T) = false) as ->;
        [|by rewrite andb_false_r].
      destruct (is_built (gc_notified T)) eqn:E; [|done].
      rewrite gc_notified_is_built in E. specialize (E m Hm Hp). congruence.
    - assert (is_built (gc_final T) = false) as ->;
        [|by rewrite andb_false_r].
      destruct (is_built (gc_final T)) eqn:E; [|done].
      rewrite gc_final_is_built in E. specialize (E m Hm Hp). congruence. }
  split; [done|].
  unfold V_operator_new, V_operator_new_region, VCown_operator_new,
    VCown_operator_new_alloc, VCown_operator_new_sized.
  rewrite !bind_is_built, !VBase_desc_is_built, Hd by done. done.
Qed.

Lemma misshapen_public_hook_rejected_witness :
  is_built (desc_init debug64 BadShape) = false ∧
  is_built (V_operator_new debug64 BadShape) = false ∧
  is_built (V_operator_new_region debug64 BadShape) = false ∧
  is_built (VCown_operator_new debug64 BadShape) = false ∧
  is_built (VCown_operator_new_alloc debug64 BadShape) = false ∧
  is_built (VCown_operator_new_sized debug64 BadShape) = false.
Proof.
  apply (misshapen_public_hook_rejected debug64 BadShape
           {| mname := "notified"; mparams := [TInt]; mpublic := true;
              mbody := no_stack_effect |}).
  left. repeat split.
Defined.

(** [class PrivateBad : public V<PrivateBad> { void notified(int); };]: a
    single hook of the wrong shape, but private.  The probe cannot name
    it, so it answers no, the call is discarded and the class builds with
    a null notified pointer. *)
Definition PrivateBad : ClassDecl :=
  {| cname := "PrivateBad"; csizeof := 16;
     cmembers := [ {| mname := "notified"; mparams := [TInt];
                      mpublic := false; mbody := no_stack_effect |} ];
     cinherited := [];
     ctrivially_destructible := true; cdestructor_usable := true |}.

Example PrivateBad_builds :
  has_notified PrivateBad = false ∧
  ∃ d, desc_init debug64 PrivateBad = Built d ∧ notified d = None.
Proof. split; [done|]. by eexists. Qed.

Example Inherits_wired :
  has_notified Inherits = true ∧
  ∃ no, notified Inherits_descriptor = Some no ∧
        no 4112 [] = [{| call_class := "Inherits";
                         call_callee := Member "notified";
                         call_this := 4112; call_args := [VObj 4112] |}].
Proof. split; [done|]. by eexists. Qed.

(** ** Tracing, with and without a [trace] of the class's own *)

(** X6: when the class declares a single [trace] and the descriptor
    builds, that member takes an [ObjectStack&], the trace pointer enters
    it on the object with the stack it was given, and the stack afterwards
    is what the member's body made of it: the class's [trace] replaces the
    empty one of [VBase]. *)
Theorem own_trace_replaces_default cfg T d m :
  desc_init cfg T = Built d →
  declared "trace" T = [m] →
  viable [AObjectStack] m = true ∧
  ∃ tr, trace d = Some tr ∧
        ∀ o st l,
          tr o st l =
            (mbody m o st,
             (l ++ [{| call_class := cname T; call_callee := Member "trace";
                       call_this := o; call_args := [VStack st] |}])%list).
Proof.
  intros (tr & fi & no & de & Htr & _ & _ & _ & ->)%desc_init_built Hm. simpl.
  unfold gc_trace in Htr. rewrite Hm, call_member_single in Htr.
  destruct (viable [AObjectStack] m) eqn:Hv; [|done].
  destruct (mpublic m); [|done].
  split; [done|]. exists tr. split; [done|]. by inversion Htr.
Qed.

Lemma own_trace_replaces_default_witness :
  viable [AObjectStack]
    {| mname := "trace"; mparams := [TObjectStackRef];
       mpublic := true; mbody := λ this st, (this + 24) :: st |} = true ∧
  ∃ tr, trace Node_descriptor = Some tr ∧
        ∀ o st l,
          tr o st l =
            (mbody {| mname := "trace"; mparams := [TObjectStackRef];
                      mpublic := true; mbody := λ this st, (this + 24) :: st |} o st,
             (l ++ [{| call_class := cname Node; call_callee := Member "trace";
                       call_this := o; call_args := [VStack st] |}])%list).
Proof.
  apply (own_trace_replaces_default debug64 Node Node_descriptor).
  - reflexivity.
  - reflexivity.
Defined.

(** X7: a class that declares [trace], but no [trace] that can take an
    [ObjectStack&], does not fall back to the empty [trace] of [VBase]:
    its declarations hide the base's, the call in [gc_trace] has no
    candidate, and [desc()] is ill-formed. *)
Theorem misshapen_trace_rejected cfg T :
  declares "trace" T →
  Forall (λ m, viable [AObjectStack] m = false) (declared "trace" T) →
  gc_trace T = IllFormed (NoMatchingFunction (cname T) "trace") ∧
  desc_init cfg T = IllFormed (NoMatchingFunction (cname T) "trace").
Proof.
  intros Hd%declares_declared Hall.
  assert (gc_trace T = IllFormed (NoMatchingFunction (cname T) "trace")) as Htr.
  { unfold gc_trace, call_member.
    destruct (declared "trace" T) as [|m0 ms] eqn:E; [done|].
    by rewrite (resolve_none_viable _ _ _ _ Hall). }
  split; [done|]. unfold desc_init. by rewrite Htr.
Qed.

Lemma misshapen_trace_rejected_witness :
  gc_trace BadTrace = IllFormed (NoMatchingFunction (cname BadTrace) "trace") ∧
  desc_init debug64 BadTrace
    = IllFormed (NoMatchingFunction (cname BadTrace) "trace").
Proof.
  apply (misshapen_trace_rejected debug64 BadTrace).
  - apply declares_declared. vm_compute. discriminate.
  - vm_compute. repeat constructor.
Defined.



(** [class Sealed : public V<Sealed> { ~Sealed(); };] with the destructor
    private: [gc_destructor] cannot call it and [desc()] is ill-formed. *)
Definition Sealed : ClassDecl :=
  {| cname := "Sealed"; csizeof := 16; cmembers := []; cinherited := [];
     ctrivially_destructible := false; cdestructor_usable := false |}.

Example Sealed_fails :
  desc_init debug64 Sealed = IllFormed (UnusableDestructor "Sealed").
Proof. reflexivity. Qed.

(** ** Allocation, continued *)

(** Each allocation function of either adapter is well-formed exactly
    when [desc()] of the class is. *)
Lemma allocation_builds_iff_desc_builds cfg T :
  is_built (V_operator_new cfg T) = is_built (desc_init cfg T) ∧
  is_built (V_operator_new_region cfg T) = is_built (desc_init cfg T) ∧
  is_built (VCown_operator_new cfg T) = is_built (desc_init cfg T) ∧
  is_built (VCown_operator_new_alloc cfg T) = is_built (desc_init cfg T) ∧
  is_built (VCown_operator_new_sized cfg T) = is_built (desc_init cfg T).
Proof.
  unfold V_operator_new, V_operator_new_region, VCown_operator_new,
    VCown_operator_new_alloc, VCown_operator_new_sized.
  rewrite !bind_is_built, !VBase_desc_is_built by done. done.
Qed.

(** X9: the two unsized allocation functions of [VCown<T>] ignore the
    size the new-expression passes: they take a block of exactly the size
    recorded in the class's descriptor, from the running thread's
    allocator and from the allocator given respectively, and return the
    address behind the header. *)
Theorem cown_new_allocates_descriptor_size cfg T d f g :
  desc_init cfg T = Built d →
  VCown_operator_new cfg T = Built f →
  VCown_operator_new_alloc cfg T = Built g →
  ∀ sz a s,
    (∃ s', f sz s = Ret (brk s + header_size cfg) s' ∧
           blocks s' = {| blk_alloc := thread_alloc s; blk_base := brk s;
                          blk_size := size d |} :: blocks s) ∧
    (∃ s', g sz a s = Ret (brk s + header_size cfg) s' ∧
           blocks s' = {| blk_alloc := a; blk_base := brk s;
                          blk_size := size d |} :: blocks s).
Proof.
  intros Hd Hf Hg sz a s.
  assert (size d = vsizeof cfg T) as ->.
  { apply desc_init_built in Hd as (? & ? & ? & ? & _ & _ & _ & _ & ->). done. }
  split.
  - destruct (VCown_operator_new_runs cfg T f sz s Hf) as (o & s' & Hr & Hal & _).
    destruct Hal as (-> & _ & Hbl & _). by exists s'.
  - destruct (VCown_operator_new_alloc_runs cfg T g sz a s Hg)
      as (o & s' & Hr & Hal & _).
    destruct Hal as (-> & _ & Hbl & _). by exists s'.
Qed.

Lemma cown_new_allocates_descriptor_size_witness :
  (∃ s', built_or (VCown_operator_new debug64 Resource) (λ _ _, Undefined)
                  48 init_state
           = Ret (brk init_state + header_size debug64) s' ∧
         blocks s' = {| blk_alloc := thread_alloc init_state;
                        blk_base := brk init_state;
                        blk_size := size Resource_descriptor |}
                     :: blocks init_state) ∧
  (∃ s', built_or (VCown_operator_new_alloc debug64 Resource)
                  (λ _ _ _, Undefined) 48 7 init_state
           = Ret (brk init_state + header_size debug64) s' ∧
         blocks s' = {| blk_alloc := 7; blk_base := brk init_state;
                        blk_size := size Resource_descriptor |}
                     :: blocks init_state).
Proof.
  apply (cown_new_allocates_descriptor_size debug64 Resource Resource_descriptor
           (built_or (VCown_operator_new debug64 Resource) (λ _ _, Undefined))
           (built_or (VCown_operator_new_alloc debug64 Resource)
                     (λ _ _ _, Undefined))).
  - reflexivity.
  - reflexivity.
  - reflexivity.
Defined.

(** X10: the sized allocation function aborts exactly when assertions are
    compiled in and the requested size is below [base_size]; in every
    other case it takes a block of exactly the requested size from the
    running thread's allocator, whatever the size of the class, and
    returns the address behind the header. *)
Theorem sized_new_aborts_iff cfg T f base_size req_size s :
  VCown_operator_new_sized cfg T = Built f →
  (f base_size req_size s = Aborted ↔ NDEBUG cfg = false ∧ req_size < base_size) ∧
  (f base_size req_size s ≠ Aborted →
   ∃ s', f base_size req_size s = Ret (brk s + header_size cfg) s' ∧
         blocks s' = {| blk_alloc := thread_alloc s; blk_base := brk s;
                        blk_size := req_size |} :: blocks s).
Proof.
  intros Hf.
  destruct (VCown_operator_new_sized_runs cfg T f base_size req_size s Hf)
    as [(Hn & Hlt & Hab)|(Hok & o & s' & Hr & Hal & _)].
  - split; [done|]. by intros [].
  - split.
    + split; [by rewrite Hr|]. intros [Hn Hlt]. destruct Hok; [congruence|lia].
    + intros _. destruct Hal as (-> & _ & Hbl & _). by exists s'.
Qed.

Lemma sized_new_aborts_iff_witness :
  (Leaf_new_sized 24 8 init_state = Aborted ↔ NDEBUG debug64 = false ∧ 8 < 24) ∧
  (Leaf_new_sized 24 8 init_state ≠ Aborted →
   ∃ s', Leaf_new_sized 24 8 init_state
           = Ret (brk init_state + header_size debug64) s' ∧
         blocks s' = {| blk_alloc := thread_alloc init_state;
                        blk_base := brk init_state;
                        blk_size := 8 |} :: blocks init_state).
Proof.
  apply (sized_new_aborts_iff debug64 Leaf Leaf_new_sized 24 8 init_state).
  reflexivity.
Defined.

(** ** The descriptor over a run of operations *)

(** The class and adapter an allocation operation allocates for. *)
Definition alloc_target (op : Op) : option (ClassDecl * BaseKind) :=
  match op with
  | CallVNew T _ | CallVNewRegion T _ _ => Some (T, BObject)
  | CallCownNew T _ | CallCownNewAlloc T _ _ | CallCownNewSized T _ _ =>
      Some (T, BCown)
  | _ => None
  end.

(** The statics after [desc()] of [VBase<T, B>] has run in [s]. *)
Definition statics_after_desc (T : ClassDecl) (B : BaseKind) (d : Descriptor)
    (s : State) : gmap StaticAddr Descriptor :=
  match statics s !! desc_addr T B with
  | Some _ => statics s
  | None => <[desc_addr T B := d]> (statics s)
  end.

Lemma create_object_statics cfg T B d s o s' :
  (let '(a, s1) :=
     match statics s !! desc_addr T B with
     | Some _ => (desc_addr T B, s)
     | None => (desc_addr T B, set_statics (<[desc_addr T B := d]>) s)
     end in create_object cfg a s1) = Ret o s' →
  statics s' = statics_after_desc T B d s.
Proof.
  unfold statics_after_desc, create_object.
  destruct (statics s !! desc_addr T B) as [d0|] eqn:E; simpl.
  - rewrite E. simpl. by intros [= _ <-].
  - rewrite lookup_insert_eq. simpl. by intros [= _ <-].
Qed.

Lemma create_fresh_region_statics cfg T B d rt s o s' :
  (let '(a, s1) :=
     match statics s !! desc_addr T B with
     | Some _ => (desc_addr T B, s)
     | None => (desc_addr T B, set_statics (<[desc_addr T B := d]>) s)
     end in create_fresh_region cfg rt a s1) = Ret o s' →
  statics s' = statics_after_desc T B d s.
Proof.
  unfold statics_after_desc, create_fresh_region, create_object.
  destruct (statics s !! desc_addr T B) as [d0|] eqn:E; simpl.
  - rewrite E. simpl. by intros [= _ <-].
  - rewrite lookup_insert_eq. simpl. by intros [= _ <-].
Qed.

Lemma exec_alloc_statics cfg op T B d f s s' :
  alloc_target op = Some (T, B) →
  desc_init cfg T = Built d →
  exec cfg op = Built f →
  f s = Ret () s' →
  statics s' = statics_after_desc T B d s.
Proof.
  intros Ht Hd. destruct op; simpl in Ht; try done; inversion Ht; subst;
    simpl.
  - unfold V_operator_new. rewrite (VBase_desc_of_init _ _ _ _ Hd). simpl.
    intros [= <-] [o Ho]%discard_ret. by eapply create_object_statics.
  - unfold V_operator_new_region. rewrite (VBase_desc_of_init _ _ _ _ Hd). simpl.
    intros [= <-] [o Ho]%discard_ret. eapply create_fresh_region_statics. exact Ho.
  - unfold VCown_operator_new. rewrite (VBase_desc_of_init _ _ _ _ Hd). simpl.
    intros [= <-] [o Ho]%discard_ret. unfold statics_after_desc.
    destruct (statics s !! desc_addr T BCown); simpl in Ho; by inversion Ho.
  - unfold VCown_operator_new_alloc. rewrite (VBase_desc_of_init _ _ _ _ Hd).
    simpl. intros [= <-] [o Ho]%discard_ret. unfold statics_after_desc.
    destruct (statics s !! desc_addr T BCown); simpl in Ho; by inversion Ho.
  - unfold VCown_operator_new_sized. rewrite (VBase_desc_of_init _ _ _ _ Hd).
    simpl. intros [= <-] [o Ho]%discard_ret. unfold assert in Ho.
    unfold statics_after_desc.
    destruct (NDEBUG cfg); [|case_bool_decide; [|done]];
      destruct (statics s !! desc_addr T BCown); simpl in Ho; by inversion Ho.
Qed.

(** X11: the descriptor of a class is built by the first allocation for
    that class and adapter and by no later one: an allocation that finds
    the static initialised leaves all statics as they are, one that does
    not initialises exactly that static, with the descriptor [desc()]'s
    initialiser builds; either way the static is initialised afterwards. *)
Theorem descriptor_built_by_first_allocation cfg op T B f s s' :
  alloc_target op = Some (T, B) →
  exec cfg op = Built f →
  f s = Ret () s' →
  is_Some (statics s' !! desc_addr T B) ∧
  (is_Some (statics s !! desc_addr T B) → statics s' = statics s) ∧
  (statics s !! desc_addr T B = None →
   ∃ d, desc_init cfg T = Built d ∧
        statics s' = <[desc_addr T B := d]> (statics s)).
Proof.
  intros Ht Hex Hrun.
  assert (∃ d, desc_init cfg T = Built d) as [d Hd].
  { destruct op; simpl in Ht; try done; inversion Ht; subst; simpl in Hex;
      apply bind_built in Hex as (g & Hg & _);
      unfold V_operator_new, V_operator_new_region, VCown_operator_new,
        VCown_operator_new_alloc, VCown_operator_new_sized in Hg;
      apply bind_built in Hg as (get & Hget & _);
      apply VBase_desc_built in Hget as (d & Hd & _); by exists d. }
  pose proof (exec_alloc_statics cfg op T B d f s s' Ht Hd Hex Hrun) as Hs.
  unfold statics_after_desc in Hs.
  destruct (statics s !! desc_addr T B) as [d0|] eqn:E.
  - rewrite Hs, E. split; [by eexists|]. split; [done|]. done.
  - rewrite Hs, lookup_insert_eq. split; [by eexists|].
    split; [by intros [? ?]|]. intros _. by exists d.
Qed.

(** The first [V<Leaf>::operator new] of a program, as an operation. *)
Definition Leaf_first_new : State → outcome unit :=
  built_or (exec debug64 (CallVNew Leaf 24)) (λ _, Undefined).

Definition after_Leaf_first_new : State :=
  default init_state (final_state (Leaf_first_new init_state)).

Lemma descriptor_built_by_first_allocation_witness :
  is_Some (statics after_Leaf_first_new !! desc_addr Leaf BObject) ∧
  (is_Some (statics init_state !! desc_addr Leaf BObject) →
   statics after_Leaf_first_new = statics init_state) ∧
  (statics init_state !! desc_addr Leaf BObject = None →
   ∃ d, desc_init debug64 Leaf = Built d ∧
        statics after_Leaf_first_new
          = <[desc_addr Leaf BObject := d]> (statics init_state)).
Proof.
  apply (descriptor_built_by_first_allocation debug64 (CallVNew Leaf 24)
           Leaf BObject Leaf_first_new init_state after_Leaf_first_new).
  - reflexivity.
  - reflexivity.
  - reflexivity.
Defined.

(** ** Invariants of a run *)

(** Every initialised static holds the descriptor built for a class of the
    name it is keyed with. *)
Definition statics_keyed (cfg : BuildConfig) (s : State) : Prop :=
  ∀ name B d, statics s !! (name, B) = Some d →
              ∃ T, cname T = name ∧ desc_init cfg T = Built d.

(** Every registered header records the address of an initialised
    static. *)
Definition headers_described (s : State) : Prop :=
  ∀ o a, headers s !! o = Some a → is_Some (statics s !! a).

Lemma exec_headers cfg op f s s' :
  exec cfg op = Built f → f s = Ret () s' →
  headers s' = headers s ∨
  ∃ T B o, headers s' = <[o := desc_addr T B]> (headers s) ∧
           is_Some (statics s' !! desc_addr T B).
Proof.
  destruct op; simpl.
  - intros (get & Hget & H)%bind_built. inversion H; subst f. intros [= <-].
    left. apply (desc_get_step cfg T B get s Hget).
  - intros (g & Hg & H)%bind_built. inversion H; subst f.
    intros [o Ho]%discard_ret.
    destruct (V_operator_new_runs cfg T g sz s Hg) as (o' & s1 & n & Hr & Hal & _).
    rewrite Hr in Ho. inversion Ho; subst. right. exists T, BObject, o.
    destruct Hal as (_ & Hh & _ & _ & _ & Hs & _). done.
  - intros (g & Hg & H)%bind_built. inversion H; subst f.
    intros [o Ho]%discard_ret.
    destruct (V_operator_new_region_runs cfg T g sz rt s Hg)
      as (o' & s1 & n & Hr & Hal & _).
    rewrite Hr in Ho. inversion Ho; subst. right. exists T, BObject, o.
    destruct Hal as (_ & Hh & _ & _ & _ & Hs & _). done.
  - intros (g & Hg & H)%bind_built. inversion H; subst f.
    intros [o Ho]%discard_ret.
    destruct (VCown_operator_new_runs cfg T g sz s Hg) as (o' & s1 & Hr & Hal & _).
    rewrite Hr in Ho. inversion Ho; subst. right. exists T, BCown, o.
    destruct Hal as (_ & Hh & _ & _ & _ & Hs & _). done.
  - intros (g & Hg & H)%bind_built. inversion H; subst f.
    intros [o Ho]%discard_ret.
    destruct (VCown_operator_new_alloc_runs cfg T g sz a s Hg)
      as (o' & s1 & Hr & Hal & _).
    rewrite Hr in Ho. inversion Ho; subst. right. exists T, BCown, o.
    destruct Hal as (_ & Hh & _ & _ & _ & Hs & _). done.
  - intros (g & Hg & H)%bind_built. inversion H; subst f.
    intros [o Ho]%discard_ret.
    destruct (VCown_operator_new_sized_runs cfg T g base_size req_size s Hg)
      as [(_ & _ & Hab)|(_ & o' & s1 & Hr & Hal & _)].
    + by rewrite Hab in Ho.
    + rewrite Hr in Ho. inversion Ho; subst. right. exists T, BCown, o.
      destruct Hal as (_ & Hh & _ & _ & _ & Hs & _). done.
  - intros [= <-] [= <-]. by left.
  - intros [= <-] [= <-]. by left.
  - intros [= <-] [= <-]. by left.
  - intros [= <-] [= <-]. by left.
  - intros [= <-] [= <-]. by left.
  - intros [= <-] [= <-]. by left.
  - intros [= <-] (? & ? & _ & _ & ->)%through_ret. by left.
  - intros [= <-] (? & ? & _ & _ & ->)%through_ret. by left.
  - intros [= <-] (? & ? & _ & _ & ->)%through_ret. by left.
  - intros [= <-] (? & ? & _ & _ & ->)%through_ret. by left.
Qed.

Lemma exec_keeps_invariants cfg op f s s' :
  exec cfg op = Built f → f s = Ret () s' →
  statics_keyed cfg s ∧ headers_described s →
  statics_keyed cfg s' ∧ headers_described s'.
Proof.
  intros Hex Hrun [Hk Hh].
  pose proof (exec_statics_step cfg op f s s' Hex Hrun) as Hstep.
  split.
  - unfold statics_keyed in *.
    destruct Hstep as [->|(T & B & d' & Hd & _ & ->)]; [done|].
    intros name B0 d. rewrite lookup_insert. case_decide as Heq.
    + intros [= <-]. exists T. by inversion Heq.
    + apply Hk.
  - intros o a.
    destruct (exec_headers cfg op f s s' Hex Hrun)
      as [->|(T & B & o' & -> & Hs)].
    + intros [d Hd]%Hh. exists d. by eapply statics_step_keeps.
    + rewrite lookup_insert. case_decide.
      * by intros [= <-].
      * intros [d Hd]%Hh. exists d. by eapply statics_step_keeps.
Qed.

(** X12: two invariants of every run of the layer's operations: an
    initialised static holds the descriptor [desc()]'s initialiser builds
    for a class of the name the static belongs to, and the descriptor
    address in every registered header is that of an initialised static,
    so the runtime can always read an object's descriptor. *)
Theorem run_keeps_descriptors_valid cfg s ops s' :
  steps cfg s ops s' →
  statics_keyed cfg s → headers_described s →
  statics_keyed cfg s' ∧ headers_described s'.
Proof.
  induction 1 as [|s op f s1 ops s2 Hex Hrun _ IH]; [done|].
  intros Hk Hh.
  destruct (exec_keeps_invariants cfg op f s s1 Hex Hrun (conj Hk Hh)).
  by apply IH.
Qed.

Lemma run_keeps_descriptors_valid_witness :
  statics_keyed debug64 after_Leaf_first_new ∧
  headers_described after_Leaf_first_new.
Proof.
  apply (run_keeps_descriptors_valid debug64 init_state [CallVNew Leaf 24]
           after_Leaf_first_new).
  - eapply steps_cons; [reflexivity|reflexivity|apply steps_nil].
  - intros name B d H. vm_compute in H. discriminate H.
  - intros o a H. vm_compute in H. discriminate H.
Defined.

(** X13: over a run that starts with well-built statics, the number of
    entries into destructors grows by exactly the number of calls made
    through a descriptor's destructor pointer: one teardown per such call,
    none from allocation, [desc()], [operator delete] or the other
    pointers. *)
Theorem one_teardown_per_destructor_call cfg s ops s' :
  steps cfg s ops s' →
  statics_built cfg s →
  destructions (log s') =
    (destructions (log s) + length (filter (λ op, is_destructor_call op = true) ops))%nat.
Proof.
  induction 1 as [|s op f s1 ops s2 Hex Hrun _ IH]; intros Hb.
  - simpl. lia.
  - rewrite IH by (eapply statics_step_built;
                   [by eapply exec_statics_step|done]).
    rewrite (exec_destructions cfg op f s s1 Hb Hex Hrun), filter_cons.
    destruct (is_destructor_call op); simpl; lia.
Qed.

Definition Resource_run : list Op :=
  [ CallCownNew Resource 48;
    CallTraceFn (desc_addr Resource BCown) 4112 [];
    CallDestructorFn (desc_addr Resource BCown) 4112;
    CallDelete 4112 ].

Definition after_Resource_run : State :=
  let run op s := default s (final_state (built_or (exec debug64 op) (λ _, Undefined) s)) in
  foldl (λ s op, run op s) init_state Resource_run.

Lemma one_teardown_per_destructor_call_witness :
  destructions (log after_Resource_run) =
    (destructions (log init_state)
     + length (filter (λ op, is_destructor_call op = true) Resource_run))%nat.
Proof.
  apply (one_teardown_per_destructor_call debug64 init_state Resource_run
           after_Resource_run).
  - eapply steps_cons; [reflexivity|reflexivity|].
    eapply steps_cons; [reflexivity|reflexivity|].
    eapply steps_cons; [reflexivity|reflexivity|].
    eapply steps_cons; [reflexivity|reflexivity|].
    apply steps_nil.
  - intros a d H. vm_compute in H. discriminate H.
Defined.

(** ** The allocation functions against each other *)

(** X14: the three allocation functions of [VCown<T>] differ only in
    where the block comes from and how large it is: given the running
    thread's allocator, the explicit-allocator variant does what the
    default one does, and so does the sized variant when asked for exactly
    the footprint, provided its assertion passes. *)
Theorem cown_new_variants_agree cfg T f g h sz s :
  VCown_operator_new cfg T = Built f →
  VCown_operator_new_alloc cfg T = Built g →
  VCown_operator_new_sized cfg T = Built h →
  g sz (thread_alloc s) s = f sz s ∧
  ∀ base_size, NDEBUG cfg = true ∨ base_size ≤ vsizeof cfg T →
               h base_size (vsizeof cfg T) s = f sz s.
Proof.
  unfold VCown_operator_new, VCown_operator_new_alloc, VCown_operator_new_sized.
  intros (get & Hget & Hf)%bind_built (get' & Hget' & Hg)%bind_built
         (get'' & Hget'' & Hh)%bind_built.
  rewrite Hget in Hget', Hget''. inversion Hget'; inversion Hget''; subst.
  inversion Hf; inversion Hg; inversion Hh; subst.
  split; [done|]. intros base_size Hok. unfold assert.
  destruct (NDEBUG cfg); [done|].
  rewrite bool_decide_true; [done|]. destruct Hok; [done|lia].
Qed.

Lemma cown_new_variants_agree_witness :
  built_or (VCown_operator_new_alloc debug64 Resource) (λ _ _ _, Undefined)
           48 (thread_alloc init_state) init_state
    = built_or (VCown_operator_new debug64 Resource) (λ _ _, Undefined)
               48 init_state ∧
  ∀ base_size, NDEBUG debug64 = true ∨ base_size ≤ vsizeof debug64 Resource →
               built_or (VCown_operator_new_sized debug64 Resource)
                        (λ _ _ _, Undefined)
                        base_size (vsizeof debug64 Resource) init_state
                 = built_or (VCown_operator_new debug64 Resource)
                            (λ _ _, Undefined) 48 init_state.
Proof.
  apply (cown_new_variants_agree debug64 Resource).
  - reflexivity.
  - reflexivity.
  - reflexivity.
Defined.

Definition is_pointer_call (op : Op) : bool :=
  match op with
  | CallTraceFn _ _ _ | CallFinaliseFn _ _ _ _
  | CallNotifiedFn _ _ | CallDestructorFn _ _ => true
  | _ => false
  end.

(** X15: [desc()], the five allocation functions and the six
    [operator delete] never enter a member of a user class: the log of
    member entries is the same after them as before.  Members are entered
    only by calls through a descriptor's pointers. *)
Theorem only_pointer_calls_enter_members cfg op f s s' :
  exec cfg op = Built f →
  f s = Ret () s' →
  is_pointer_call op = false →
  log s' = log s.
Proof.
  destruct op; simpl; try done.
  - intros (get & Hget & H)%bind_built. inversion H; subst f. intros [= <-] _.
    apply (desc_get_step cfg T B get s Hget).
  - intros (g & Hg & H)%bind_built. inversion H; subst f.
    intros [o Ho]%discard_ret _.
    destruct (V_operator_new_runs cfg T g sz s Hg) as (o' & s1 & n & Hr & Hal & _).
    rewrite Hr in Ho. inversion Ho; subst. apply Hal.
  - intros (g & Hg & H)%bind_built. inversion H; subst f.
    intros [o Ho]%discard_ret _.
    destruct (V_operator_new_region_runs cfg T g sz rt s Hg)
      as (o' & s1 & n & Hr & Hal & _).
    rewrite Hr in Ho. inversion Ho; subst. apply Hal.
  - intros (g & Hg & H)%bind_built. inversion H; subst f.
    intros [o Ho]%discard_ret _.
    destruct (VCown_operator_new_runs cfg T g sz s Hg) as (o' & s1 & Hr & Hal & _).
    rewrite Hr in Ho. inversion Ho; subst. apply Hal.
  - intros (g & Hg & H)%bind_built. inversion H; subst f.
    intros [o Ho]%discard_ret _.
    destruct (VCown_operator_new_alloc_runs cfg T g sz a s Hg)
      as (o' & s1 & Hr & Hal & _).
    rewrite Hr in Ho. inversion Ho; subst. apply Hal.
  - intros (g & Hg & H)%bind_built. inversion H; subst f.
    intros [o Ho]%discard_ret _.
    destruct (VCown_operator_new_sized_runs cfg T g base_size req_size s Hg)
      as [(_ & _ & Hab)|(_ & o' & s1 & Hr & Hal & _)].
    + by rewrite Hab in Ho.
    + rewrite Hr in Ho. inversion Ho; subst. apply Hal.
  - by intros [= <-] [= <-].
  - by intros [= <-] [= <-].
  - by intros [= <-] [= <-].
  - by intros [= <-] [= <-].
  - by intros [= <-] [= <-].
  - by intros [= <-] [= <-].
Qed.

Lemma only_pointer_calls_enter_members_witness :
  log after_Leaf_first_new = log init_state.
Proof.
  apply (only_pointer_calls_enter_members debug64 (CallVNew Leaf 24)
           Leaf_first_new init_state after_Leaf_first_new).
  - reflexivity.
  - reflexivity.
  - reflexivity.
Defined.
